(** * Batch job runner of [whisper_gui_queue_full_pp_v3.py]

    A shallow embedding of the transcription queue runner: the duration
    prober, the merged-basename deriver, the progress parser and the
    worker loop, followed by the properties the specification states
    about them.

    Modelling conventions.
    - A Python [str] is a [string]; characters are the 8-bit code points
      of [ascii] (the Latin-1 range), which is where the character
      classes used by the source ([\s], [\d], case folding of the
      pattern's letters) are spelled out below.
    - A Python [float] is an exact rational [Q]; rounding, infinities
      and NaN are outside the model.  Equality of numbers is [==].
    - Everything the worker observes from outside (probe results, clock
      readings, child-process output, the cancel flag, the file system)
      is an explicit input; everything it does to the outside (events
      put on the UI queue, processes launched or terminated, the merged
      file written) is an explicit output list. *)

From Stdlib Require Import ZArith QArith Lqa List String Ascii Bool Lia Sorted.
From Stdlib Require Import DecimalString Floats Permutation Qround Qabs.
Import ListNotations.

#[local] Open Scope string_scope.
#[local] Open Scope list_scope.
#[local] Open Scope Q_scope.

Infix "+++" := String.append (right associativity, at level 60).

(** ** Python string primitives *)

Definition ord (c : ascii) : N := N_of_ascii c.

Definition in_range (lo hi : N) (c : ascii) : bool :=
  ((lo <=? ord c) && (ord c <=? hi))%N.

(** [str.isspace] / regex [\s] on code points below 256. *)
Definition isspace (c : ascii) : bool :=
  in_range 9 13 c || in_range 28 32 c || (ord c =? 133)%N || (ord c =? 160)%N.

(** Regex [[0-9]]; on code points below 256 also [\d]. *)
Definition isdigit (c : ascii) : bool := in_range 48 57 c.

(** Case folding of the letters A-Z, as [re.IGNORECASE] compares the
    ASCII letters of a pattern. *)
Definition lower (c : ascii) : ascii :=
  if in_range 65 90 c then ascii_of_N (ord c + 32) else c.

Definition eq_nocase (p c : ascii) : bool := (lower p =? lower c)%char.

Fixpoint lstrip_with (p : ascii -> bool) (s : string) : string :=
  match s with
  | String c r => if p c then lstrip_with p r else s
  | EmptyString => EmptyString
  end.

Fixpoint rstrip_with (p : ascii -> bool) (s : string) : string :=
  match s with
  | EmptyString => EmptyString
  | String c r =>
      match rstrip_with p r with
      | EmptyString => if p c then EmptyString else String c EmptyString
      | r' => String c r'
      end
  end.

(** The one-character text of a line feed. *)
Definition LF : string := String "010" EmptyString.

(** [s.strip()] *)
Definition strip (s : string) : string :=
  rstrip_with isspace (lstrip_with isspace s).

(** [sep.join(parts)] *)
Fixpoint join (sep : string) (parts : list string) : string :=
  match parts with
  | [] => EmptyString
  | [p] => p
  | p :: rest => p +++ sep +++ join sep rest
  end.

(** [s.startswith(p)] *)
Fixpoint startswith (p s : string) : bool :=
  match p, s with
  | EmptyString, _ => true
  | String a p', String b s' => (a =? b)%char && startswith p' s'
  | String _ _, EmptyString => false
  end.

(** [p in s] *)
Fixpoint contains (p s : string) : bool :=
  startswith p s ||
  match s with
  | EmptyString => false
  | String _ s' => contains p s'
  end.

(** [str(n)] for an [int]. *)
Definition str_of_int (n : Z) : string := NilZero.string_of_int (Z.to_int n).

(** ** Numbers *)

(** [max(a, b)] and [min(a, b)] as Python evaluates them: the first
    argument is kept unless the second is strictly better. *)
Definition pymax (a b : Q) : Q := if Qlt_le_dec a b then b else a.
Definition pymin (a b : Q) : Q := if Qlt_le_dec b a then b else a.

Definition digit_val (c : ascii) : Z := Z.of_N (ord c) - 48.

(** Value of a run of decimal digits, read left to right. *)
Fixpoint digits_val (acc : Z) (s : string) : Z :=
  match s with
  | EmptyString => acc
  | String c r => digits_val (10 * acc + digit_val c) r
  end.

(** Splits [s] into its longest prefix satisfying [p] and the rest. *)
Fixpoint span (p : ascii -> bool) (s : string) : string * string :=
  match s with
  | String c r =>
      if p c then let (a, b) := span p r in (String c a, b)
      else (EmptyString, s)
  | EmptyString => (EmptyString, EmptyString)
  end.

(** Value of [ip "." fp] for digit runs [ip] and [fp]. *)
Definition decimal_val (ip fp : string) : Q :=
  let scale := Z.pow 10 (Z.of_nat (String.length fp)) in
  Qmake (digits_val (digits_val 0 ip) fp) (Z.to_pos scale).

(** ** The progress pattern

    [PROG_RE = re.compile(r"whisper_print_progress_callback:\s*progress\s*=\s*([0-9]+(?:\.[0-9]+)?)%?", re.IGNORECASE)]

    The pattern is deterministic once a start position is fixed: every
    greedy run ([\s*], [[0-9]+]) is followed by something the run cannot
    contain, so no backtracking changes the outcome. *)

(** Consumes the literal [lit], ignoring case, and returns the rest. *)
Fixpoint eat_nocase (lit s : string) : option string :=
  match lit, s with
  | EmptyString, _ => Some s
  | String p lit', String c s' =>
      if eq_nocase p c then eat_nocase lit' s' else None
  | String _ _, EmptyString => None
  end.

(** Group 1 of the pattern, [[0-9]+(?:\.[0-9]+)?], at the start of [s]:
    the integer digits and the fraction digits (empty when the optional
    part does not match). *)
Definition match_number (s : string) : option (string * string) :=
  let (ip, r) := span isdigit s in
  match ip with
  | EmptyString => None
  | _ =>
      match r with
      | String "." r' =>
          let (fp, _) := span isdigit r' in Some (ip, fp)
      | _ => Some (ip, EmptyString)
      end
  end.

(** [PROG_RE.match] anchored at the start of [s]; the result is group 1. *)
Definition PROG_RE_match (s : string) : option (string * string) :=
  match eat_nocase "whisper_print_progress_callback:" s with
  | None => None
  | Some s1 =>
      match eat_nocase "progress" (lstrip_with isspace s1) with
      | None => None
      | Some s2 =>
          match eat_nocase "=" (lstrip_with isspace s2) with
          | None => None
          | Some s3 => match_number (lstrip_with isspace s3)
          end
      end
  end.

(** [PROG_RE.search(s)]: the match at the leftmost start position. *)
Fixpoint PROG_RE_search (s : string) : option (string * string) :=
  match PROG_RE_match s with
  | Some g => Some g
  | None =>
      match s with
      | EmptyString => None
      | String _ r => PROG_RE_search r
      end
  end.

(** [float(m.group(1))] *)
Definition float_of_group (g : string * string) : Q :=
  decimal_val (fst g) (snd g).

(** Lines 661-663 of [_worker]:
    [raw = float(m.group(1)); pct = (raw / 100.0) if raw > 100.0 else raw;
     pct = max(0.0, min(100.0, pct))]. *)
Definition pct_of_raw (raw : Q) : Q :=
  let pct := if Qlt_le_dec 100 raw then raw / 100 else raw in
  pymax 0 (pymin 100 pct).

(** One pass of the body of [for part in parts[:-1]]: the percentage a
    completed line contributes, if any. *)
Definition parse_progress (part : string) : option Q :=
  match PROG_RE_search part with
  | None => None
  | Some g => Some (pct_of_raw (float_of_group g))
  end.

(** [re.split(r"[\r\n]+", buf)] *)
Definition is_newline (c : ascii) : bool :=
  (c =? "010")%char || (c =? "013")%char.

(** [in_run] tells that the previous character belongs to the separator
    run being skipped. *)
Fixpoint split_lines_from (in_run : bool) (s : string) : list string :=
  match s with
  | EmptyString => [EmptyString]
  | String c r =>
      if is_newline c then
        if in_run then split_lines_from true r
        else EmptyString :: split_lines_from true r
      else
        match split_lines_from false r with
        | p :: ps => String c p :: ps
        | [] => [String c EmptyString]
        end
  end.

Definition split_lines (s : string) : list string := split_lines_from false s.

(** ** Files, probe results and exceptions *)

(** A [pathlib.Path] as the runner uses it: [str(p)], [p.name], [p.stem]. *)
Record Path := mkPath {
  path_str : string;
  name : string;
  stem : string
}.

(** [dir / leaf] rendered as a string. *)
Definition path_join (dir leaf : string) : string := dir +++ "/" +++ leaf.

(** What [subprocess.run(cmd, capture_output=True, text=True)] gives back. *)
Record Completed := mkCompleted {
  returncode : Z;
  stdout : string;
  stderr : string
}.

(** The exceptions the worker's [except Exception] can see in the model:
    the prober's [RuntimeError], the [ValueError] of [float(out)] (with
    the offending text) and a failed [subprocess.Popen]. *)
Inductive PyExn :=
| RuntimeError (msg : string)
| ValueError (arg : string)
| OSError (msg : string).

(** A small error monad for code that may raise. *)
Definition Raises (A : Type) : Type := (PyExn + A)%type.
Definition ret {A} (a : A) : Raises A := inr a.
Definition raise {A} (e : PyExn) : Raises A := inl e.
Definition bind {A B} (m : Raises A) (k : A -> Raises B) : Raises B :=
  match m with
  | inl e => inl e
  | inr a => k a
  end.
Notation "x <- m ;; k" := (bind m (fun x => k))
  (at level 61, m at next level, right associativity).

(** ** Duration prober *)

Definition run_capture (p : Completed) : Z * string * string :=
  (returncode p, strip (stdout p), strip (stderr p)).

(** [float(s)] for the finite decimal literals: optional surrounding
    white space, an optional sign, digits with an optional fraction (at
    least one digit overall) and an optional exponent.  The non-finite
    spellings ([inf], [nan]) and digit-group underscores have no value in
    [Q] and are not in the model. *)
Definition split_sign (s : string) : bool * string :=
  match s with
  | String "-" r => (true, r)
  | String "+" r => (false, r)
  | _ => (false, s)
  end.

Definition parse_exponent (s : string) : option Z :=
  match s with
  | EmptyString => Some 0%Z
  | String e r =>
      if eq_nocase "e" e then
        let (neg, r1) := split_sign r in
        let (ds, r2) := span isdigit r1 in
        match ds, r2 with
        | String _ _, EmptyString =>
            Some (if neg then (- digits_val 0 ds)%Z else digits_val 0 ds)
        | _, _ => None
        end
      else None
  end.

Definition py_float (s : string) : option Q :=
  let (neg, s1) := split_sign (strip s) in
  let (ip, r1) := span isdigit s1 in
  let (fp, r2) :=
    match r1 with
    | String "." r => span isdigit r
    | _ => (EmptyString, r1)
    end in
  match ip +++ fp with
  | EmptyString => None
  | _ =>
      match parse_exponent r2 with
      | None => None
      | Some ex =>
          let v := decimal_val ip fp * Qpower 10 ex in
          Some (if neg then - v else v)
      end
  end.

Definition get_duration_seconds (audio_path : Path) (probe : Completed)
  : Raises Q :=
  let '(rc, out, err) := run_capture probe in
  if negb (rc =? 0)%Z then
    raise (RuntimeError ("ffprobe failed for " +++ name audio_path +++ ": "
                         +++ match err with EmptyString => out | _ => err end))
  else
    match py_float out with
    | None => raise (ValueError out)
    | Some x => ret (pymax 0 x)
    end.

(** ** Basename deriver *)

(** The characters of [rstrip("._- ")]. *)
Definition is_trim (c : ascii) : bool :=
  (c =? ".")%char || (c =? "_")%char || (c =? "-")%char || (c =? " ")%char.

(** The class [[._-]] of the digit-group pattern. *)
Definition is_sep (c : ascii) : bool :=
  (c =? ".")%char || (c =? "_")%char || (c =? "-")%char.

(** The [while] loop of lines 168-172: [base[:i]] for the first index
    [i] at which [base] and [s] differ or one of them ends. *)
Fixpoint common_prefix (base s : string) : string :=
  match base, s with
  | String a base', String b s' =>
      if (a =? b)%char then String a (common_prefix base' s') else EmptyString
  | _, _ => EmptyString
  end.

(** The [for s in stems[1:]] loop with its [break] on an empty prefix. *)
Fixpoint shrink_prefix (base : string) (rest : list string) : string :=
  match rest with
  | [] => base
  | s :: rest' =>
      match common_prefix base s with
      | EmptyString => EmptyString
      | base' => shrink_prefix base' rest'
      end
  end.

(** [re.sub(pattern, empty, base)] for the pattern [([._-]?\d+)+$], the
    replacement being the empty text.  A match is a non-empty run of
    groups, each an optional separator followed by digits, that reaches
    the end of the text; the leftmost such match is the longest one.
    The run is found from the end: [rs] is the text read backwards and
    [after_digit] tells whether the character to the right is a digit.
    The result is what is left of [rs]. *)
Fixpoint drop_digit_groups (after_digit : bool) (rs : list ascii) : list ascii :=
  match rs with
  | [] => []
  | c :: rs' =>
      if isdigit c then drop_digit_groups true rs'
      else if is_sep c && after_digit then drop_digit_groups false rs'
      else rs
  end.

(** [$] also matches just before a final line feed, which then stays. *)
Definition sub_digit_groups (s : string) : string :=
  match rev (list_ascii_of_string s) with
  | [] => EmptyString
  | c :: rs =>
      if (c =? "010")%char then
        string_of_list_ascii (rev (drop_digit_groups false rs) ++ [c])
      else
        string_of_list_ascii (rev (drop_digit_groups false (c :: rs)))
  end.

(** [base if base else "merged"] *)
Definition or_merged (base : string) : string :=
  match base with
  | EmptyString => "merged"
  | _ => base
  end.

Definition derive_merged_basename (files : list Path) : string :=
  match map stem files with
  | [] => "merged"
  | s0 :: rest =>
      let base :=
        match rest with
        | [] => s0
        | _ => shrink_prefix s0 rest
        end in
      let base := rstrip_with is_trim base in
      let base := rstrip_with is_trim (sub_digit_groups base) in
      or_merged base
  end.

(** ** Job settings and the transcription command *)

Record JobSettings := mkSettings {
  whisper_cli : string;
  model : string;
  out_dir : string;
  language : string;
  threads : Z;
  beam_size : Z;
  best_of : Z;
  no_fallback : bool;
  no_timestamps : bool;
  flash_attn : bool;
  vad : bool;
  compute_mode : string;
  real_progress : bool
}.

(** Lines 583-618: the argument vector handed to [subprocess.Popen]. *)
Definition build_cmd (settings : JobSettings) (audio : Path) : list string :=
  let mode := compute_mode settings in
  [ whisper_cli settings;
    "-m"; model settings;
    "-f"; path_str audio;
    "-otxt";
    "-of"; path_join (out_dir settings) (stem audio);
    "-t"; str_of_int (threads settings);
    "-l"; language settings;
    "-bs"; str_of_int (beam_size settings);
    "-bo"; str_of_int (best_of settings) ]
  ++ (if startswith "CPU only" mode then ["-ng"]
      else if contains "OpenVINO CPU" mode then ["-oved"; "CPU"]
      else if contains "OpenVINO GPU" mode then ["-oved"; "GPU"]
      else [])
  ++ (if no_timestamps settings then ["-nt"] else [])
  ++ (if no_fallback settings then ["-nf"] else [])
  ++ (if flash_attn settings then ["-fa"] else [])
  ++ (if vad settings then ["--vad"] else [])
  ++ (if real_progress settings then ["-pp"] else ["-np"]).

(** ** Events and effects *)

(** The tuples put on [ui_queue], by their tag.  An ["error"] event
    carries [str(e)]; the model keeps the exception itself. *)
Inductive RunEvent :=
| EvFileStart (idx total : nat) (fname : string) (dur : Q)
| EvProgress (total_audio total_done_est total_elapsed
              dur done_file file_elapsed : Q)
             (idx total : nat) (fname : string)
| EvFileDone (idx total : nat) (fname : string)
| EvLog (msg : string)
| EvDone
| EvError (e : PyExn).

(** What the worker does to the outside world, in order. *)
Inductive Effect :=
| Put (ev : RunEvent)                        (* [ui_queue.put] *)
| Popen (cmd : list string) (piped : bool)   (* [subprocess.Popen] *)
| Terminate                                  (* [proc.terminate()] *)
| WriteText (path content : string).         (* [merged_path.write_text] *)

(** ** What the worker observes *)

(** One iteration of [while proc.poll() is None]. *)
Record Tick := mkTick {
  tick_cancel : bool;        (* cancel was requested since the last look *)
  tick_now : Q;              (* [time.time()] *)
  tick_ch : option ascii     (* [proc.stdout.read(1)]; [None] when empty *)
}.

(** Everything observed about one queued file.  The child process is
    seen running for [ticks] iterations and then exited with
    [exit_code], unless cancellation ends the loop earlier. *)
Record FileObs := mkObs {
  probe : Completed;             (* the duration probe's run *)
  cancel_before : bool;          (* requested before the file is reached *)
  file_start : Q;                (* [time.time()] at line 579 *)
  popen_error : option string;   (* [Popen] raising instead of starting *)
  ticks : list Tick;
  exit_code : Z;                 (* what [proc.poll()] returns at the end *)
  cancel_after : bool;           (* requested since the loop's last look *)
  file_end : Q;                  (* [time.time()] at line 683 *)
  out_txt : option string        (* contents of the per-file text, if it exists *)
}.

(** ** The polling loop (lines 632-676) *)

(** [for part in parts[:-1]]: the last matching line wins. *)
Fixpoint scan_parts (last_pct : option Q) (parts : list string) : option Q :=
  match parts with
  | [] => last_pct
  | part :: rest =>
      scan_parts
        (match parse_progress part with
         | Some pct => Some pct
         | None => last_pct
         end) rest
  end.

(** Lines 653-664: the new [buf] and [last_pct] after reading [ch]. *)
Definition read_output (buf : string) (last_pct : option Q) (ch : option ascii)
  : string * option Q :=
  match ch with
  | None => (buf, last_pct)
  | Some c =>
      let parts := split_lines (buf +++ String c EmptyString) in
      (last parts EmptyString, scan_parts last_pct (removelast parts))
  end.

(** Lines 648-664: [buf] and [last_pct] after an iteration's read, which
    happens in real-progress mode only. *)
Definition observe_output (settings : JobSettings) (buf : string)
           (last_pct : option Q) (t : Tick) : string * option Q :=
  if real_progress settings then read_output buf last_pct (tick_ch t)
  else (buf, last_pct).

Section PollLoop.

Variable settings : JobSettings.
Variables total_audio total_start total_done_audio speed_est : Q.
Variables idx nfiles : nat.
Variable audio : Path.
Variables dur t_file_start : Q.

(** Lines 666-669. *)
Definition done_file_of (last_pct : option Q) (file_elapsed : Q) : Q :=
  match Qlt_le_dec 0 dur, last_pct with
  | left _, Some pct => dur * (pct / 100)
  | _, _ => pymin dur (file_elapsed * speed_est)
  end.

(** The loop over the iterations in which the process is still
    running.  The result is the effects of the loop and whether the
    cancel flag was seen set. *)
Fixpoint poll_loop (buf : string) (last_pct : option Q) (last_done_file : Q)
         (ts : list Tick) : list Effect * bool :=
  match ts with
  | [] => ([], false)
  | t :: ts' =>
      if tick_cancel t then ([Terminate], true)
      else
        let now := tick_now t in
        let file_elapsed := now - t_file_start in
        let total_elapsed := now - total_start in
        let '(buf', last_pct') := observe_output settings buf last_pct t in
        let done_file := done_file_of last_pct' file_elapsed in
        if Qlt_le_dec last_done_file done_file then
          let total_done_est := total_done_audio + done_file in
          let '(effs, c) := poll_loop buf' last_pct' done_file ts' in
          (Put (EvProgress total_audio total_done_est total_elapsed
                           dur done_file file_elapsed idx nfiles (name audio))
             :: effs, c)
        else poll_loop buf' last_pct' last_done_file ts'
  end.

End PollLoop.

(** ** The loop over the files (lines 573-694) *)

(** The variables that live across iterations of the [for] loop. *)
Record LoopState := mkLoop {
  total_done_audio : Q;
  speed_est : Q;
  merged_parts : list string
}.

(** How one iteration ends. *)
Inductive Outcome :=
| Next (st : LoopState)      (* falls through to the next file *)
| Break                      (* [break] on cancellation *)
| Raised (e : PyExn).        (* an exception leaves the loop *)

Definition NO_OUTPUT : string := "[NO OUTPUT TXT FOUND]".

(** Line 683. *)
Definition file_wall_of (o : FileObs) : Q :=
  pymax 0.001 (file_end o - file_start o).

(** Lines 684-686. *)
Definition update_speed (speed dur file_wall : Q) : Q :=
  if Qlt_le_dec 0 dur then speed * 0.70 + (dur / file_wall) * 0.30
  else speed.

(** Lines 688-692. *)
Definition transcript_block (audio : Path) (o : FileObs) : string :=
  let text :=
    match out_txt o with
    | Some t => strip t
    | None => NO_OUTPUT
    end in
  "--- " +++ stem audio +++ " ---" +++ LF +++ text +++ LF.

Section OneRun.

Variable settings : JobSettings.
Variable nfiles : nat.
Variables total_audio total_start : Q.

(** The body of the [for] loop for the file at position [idx]. *)
Definition process_file (idx : nat) (st : LoopState)
           (audio : Path) (dur : Q) (o : FileObs) : list Effect * Outcome :=
  if cancel_before o then ([], Break)
  else
    let started := Put (EvFileStart idx nfiles (name audio) dur) in
    match popen_error o with
    | Some msg => ([started], Raised (OSError msg))
    | None =>
        let launched :=
          Popen (build_cmd settings audio) (real_progress settings) in
        let '(effs, cancelled) :=
          poll_loop settings total_audio total_start
                    (total_done_audio st) (speed_est st)
                    idx nfiles audio dur (file_start o)
                    EmptyString None 0 (ticks o) in
        if cancelled || cancel_after o then
          (started :: launched :: effs, Break)
        else
          let st' :=
            mkLoop (total_done_audio st + dur)
                   (update_speed (speed_est st) dur (file_wall_of o))
                   (merged_parts st ++ [transcript_block audio o]) in
          (started :: launched :: effs
             ++ [Put (EvFileDone idx nfiles (name audio))],
           Next st')
    end.

(** [for idx, (audio, dur) in enumerate(zip(files, durations), start=1)].
    The result is the effects and either the exception that escaped
    or, at the end of the loop, [merged_parts] and whether the loop
    was left because the cancel flag was set. *)
Fixpoint run_files (idx : nat) (st : LoopState)
         (jobs : list (Path * Q * FileObs))
  : list Effect * Raises (list string * bool) :=
  match jobs with
  | [] => ([], ret (merged_parts st, false))
  | (audio, dur, o) :: rest =>
      match process_file idx st audio dur o with
      | (effs, Next st') =>
          let '(effs', r) := run_files (S idx) st' rest in
          (effs ++ effs', r)
      | (effs, Break) => (effs, ret (merged_parts st, true))
      | (effs, Raised e) => (effs, raise e)
      end
  end.

End OneRun.

(** ** The worker (lines 560-701) *)

(** [durations = [get_duration_seconds(f) for f in files]], each file
    paired with its duration. *)
Fixpoint probe_all (files : list (Path * FileObs))
  : Raises (list (Path * Q * FileObs)) :=
  match files with
  | [] => ret []
  | (f, o) :: rest =>
      d <- get_duration_seconds f (probe o) ;;
      ds <- probe_all rest ;;
      ret ((f, d, o) :: ds)
  end.

(** [sum(durations)] *)
Definition sum_durations (jobs : list (Path * Q * FileObs)) : Q :=
  fold_left Qplus (map (fun j => snd (fst j)) jobs) 0.

Definition initial_state : LoopState := mkLoop 0 0.20 [].

(** Line 696: ["\n".join(merged_parts).strip() + "\n"]. *)
Definition merged_text (parts : list string) : string :=
  strip (join (LF) parts) +++ LF.

Definition merged_path (settings : JobSettings) (files : list Path) : string :=
  path_join (out_dir settings) (derive_merged_basename files +++ "_merged.txt").

(** What a run leaves behind: its effects in order, and whether the
    cancel flag was set when the worker last looked at it. *)
Record RunResult := mkResult {
  effects : list Effect;
  cancel_set : bool
}.

(** [files] pairs each queued path with what is observed about it;
    [total_start] is [time.time()] at line 569. *)
Definition _worker (settings : JobSettings) (total_start : Q)
           (files : list (Path * FileObs)) : RunResult :=
  match probe_all files with
  | inl e => mkResult [Put (EvError e)] false
  | inr jobs =>
      let s := sum_durations jobs in
      let total_audio := if Qeq_bool s 0 then 0 else s in
      let path := merged_path settings (map fst files) in
      match run_files settings (List.length files) total_audio total_start
                      1%nat initial_state jobs with
      | (effs, inl e) => mkResult (effs ++ [Put (EvError e)]) false
      | (effs, inr (parts, cancelled)) =>
          mkResult
            (effs ++ [ WriteText path (strip (join (LF) parts)
                                       +++ LF);
                       Put (EvLog ("Merged transcript: " +++ path));
                       Put EvDone ])
            cancelled
      end
  end.

(** ** The observer ([_poll_ui_queue], lines 708-733)

    What the consumer shows for an event: a log line, or the error box
    with the run's exception.  [cancel_is_set] is the state of
    [cancel_event] when the event is handled. *)
Inductive Report :=
| LogLine (msg : string)
| ErrorBox (e : PyExn).

Definition poll_ui_report (cancel_is_set : bool) (ev : RunEvent)
  : option Report :=
  match ev with
  | EvLog msg => Some (LogLine msg)
  | EvError e => Some (ErrorBox e)
  | EvDone => Some (LogLine (if cancel_is_set then "Stopped." else "All done."))
  | _ => None
  end.

(** ** Reading a run's effects *)

Definition is_popen (e : Effect) : bool :=
  match e with Popen _ _ => true | _ => false end.

Definition is_write (e : Effect) : bool :=
  match e with WriteText _ _ => true | _ => false end.

Definition is_error (e : Effect) : bool :=
  match e with Put (EvError _) => true | _ => false end.

(** The [done_file] values of the progress events of file [k]. *)
Fixpoint done_values (k : nat) (effs : list Effect) : list Q :=
  match effs with
  | [] => []
  | Put (EvProgress _ _ _ _ d _ i _ _) :: rest =>
      if Nat.eqb i k then d :: done_values k rest else done_values k rest
  | _ :: rest => done_values k rest
  end.

(** Every progress event of [effs] satisfies [R total_audio total_done_est]. *)
Definition progress_all (R : Q -> Q -> Prop) (effs : list Effect) : Prop :=
  forall ta td te d df fe i n nm,
    In (Put (EvProgress ta td te d df fe i n nm)) effs -> R ta td.

(** ** Vocabulary of the properties *)

(** The progress marker occurs somewhere in [s], in any letter case. *)
Fixpoint has_marker (s : string) : bool :=
  match eat_nocase "whisper_print_progress_callback:" s with
  | Some _ => true
  | None =>
      match s with
      | EmptyString => false
      | String _ r => has_marker r
      end
  end.

(** [s] holds no line terminator: it is a line still being assembled. *)
Fixpoint no_newline (s : string) : bool :=
  match s with
  | EmptyString => true
  | String c r => negb (is_newline c) && no_newline r
  end.

Definition last_char (s : string) : option ascii :=
  hd_error (rev (list_ascii_of_string s)).

(** [s] ends in a character that is neither a digit nor a line feed. *)
Definition ends_plain (s : string) : bool :=
  match last_char s with
  | Some c => negb (isdigit c) && negb (c =? "010")%char
  | None => false
  end.

(** The probe of a file succeeds: exit status zero and a parseable output. *)
Definition probe_ok (o : FileObs) : bool :=
  (returncode (probe o) =? 0)%Z &&
  match py_float (strip (stdout (probe o))) with
  | Some _ => true
  | None => false
  end.

(** Cancellation is seen while the file's process is being polled, or
    at the check that follows the polling loop. *)
Definition cancelled_during (o : FileObs) : bool :=
  existsb tick_cancel (ticks o) || cancel_after o.

(** The file's process is launched and runs to its end with the cancel
    flag never seen set. *)
Definition completes (o : FileObs) : bool :=
  negb (cancel_before o) &&
  match popen_error o with None => true | Some _ => false end &&
  negb (cancelled_during o).

(** The same observations with another exit status of the child. *)
Definition with_exit_code (rc : Z) (o : FileObs) : FileObs :=
  mkObs (probe o) (cancel_before o) (file_start o) (popen_error o)
        (ticks o) rc (cancel_after o) (file_end o) (out_txt o).

(** Replaces the exit statuses of the queued files by those of [rcs],
    position by position. *)
Fixpoint set_exit_codes (rcs : list Z) (files : list (Path * FileObs))
  : list (Path * FileObs) :=
  match rcs, files with
  | rc :: rcs', (f, o) :: files' =>
      (f, with_exit_code rc o) :: set_exit_codes rcs' files'
  | _, _ => files
  end.

(** The last percentage read, if any, lies in [0,100]. *)
Definition pct_ok (last_pct : option Q) : Prop :=
  match last_pct with
  | None => True
  | Some p => 0 <= p <= 100
  end.

(** What the polling loop of one file emits: [Terminate], or a progress
    event of that file whose estimate stays within the file's duration. *)
Definition poll_effect (total_audio done_before : Q) (idx nfiles : nat)
           (audio : Path) (dur : Q) (e : Effect) : Prop :=
  e = Terminate \/
  exists te df fe,
    e = Put (EvProgress total_audio (done_before + df) te dur df fe
                        idx nfiles (name audio))
    /\ df <= dur.

(** Neither an error event nor a write of the merged file. *)
Definition benign (e : Effect) : Prop :=
  is_error e = false /\ is_write e = false.

(** The transcript block of a probed job. *)
Definition job_block (j : Path * Q * FileObs) : string :=
  transcript_block (fst (fst j)) (snd j).

Definition job_dur (j : Path * Q * FileObs) : Q := snd (fst j).

(** Two observations that agree on everything but the child's exit status. *)
Definition same_but_exit (o o' : FileObs) : Prop :=
  exists rc, o' = with_exit_code rc o.

(** The duration a successful probe of the file yields. *)
Definition duration_of (o : FileObs) : Q :=
  match py_float (strip (stdout (probe o))) with
  | Some x => pymax 0 x
  | None => 0
  end.

(** A queued file with its probed duration, as the loop receives it. *)
Definition probed (fo : Path * FileObs) : Path * Q * FileObs :=
  (fst fo, duration_of (snd fo), snd fo).

Definition files_agree (fo fo' : Path * FileObs) : Prop :=
  fst fo = fst fo' /\ same_but_exit (snd fo) (snd fo').

Definition jobs_agree (j j' : Path * Q * FileObs) : Prop :=
  fst j = fst j' /\ same_but_exit (snd j) (snd j').

(** ** Sample data *)

Definition sample_settings : JobSettings :=
  mkSettings "whisper-cli" "ggml.bin" "out" "bg" 4 5 5
             false true false false "CPU only" true.

Definition wav (s : string) : Path :=
  mkPath ("/in/" +++ s +++ ".wav") (s +++ ".wav") s.

Definition probe_says (out : string) : Completed := mkCompleted 0 out EmptyString.

(** The ticks in which the child prints [s], one character per tick,
    0.2 s apart. *)
Fixpoint printing (s : string) (t : Q) : list Tick :=
  match s with
  | EmptyString => []
  | String c r => mkTick false t (Some c) :: printing r (t + 0.2)
  end.

Definition obs_done : FileObs :=
  mkObs (probe_says "10.0") false 0 None
        (printing ("whisper_print_progress_callback: progress = 50%" +++ LF)
                  0.2)
        0 false 20 (Some (" hello" +++ LF)).

Definition obs_cancelled : FileObs :=
  mkObs (probe_says "20.0") false 20 None
        [mkTick false 21 None; mkTick true 22 None]
        0 true 23 (Some "partial").

Definition obs_fresh : FileObs :=
  mkObs (probe_says "30.0") false 0 None [] 0 false 0 None.

Definition obs_no_output : FileObs :=
  mkObs (probe_says "100") false 0 None [mkTick false 1 None] 0 false 50 None.

Definition obs_probe_fails : FileObs :=
  mkObs (mkCompleted 1 EmptyString "No such file") false 0 None [] 0 false 0 None.

Definition obs_negative : Completed := probe_says "-5".

Definition queue_probe_fails : list (Path * FileObs) :=
  [(wav "a_1", obs_done); (wav "a_2", obs_probe_fails); (wav "a_3", obs_fresh)].

Definition queue_cancelled : list (Path * FileObs) :=
  [(wav "a_1", obs_done); (wav "a_2", obs_cancelled); (wav "a_3", obs_fresh)].

Definition queue_no_output : list (Path * FileObs) :=
  [(wav "a_1", obs_done); (wav "a_2", obs_no_output)].

(** * Further vocabulary *)

(** ** Reading a run's effects, continued *)

(** The effects the loop over the files can produce. *)
Definition in_loop (e : Effect) : bool :=
  match e with
  | Put (EvFileStart _ _ _ _) => true
  | Put (EvProgress _ _ _ _ _ _ _ _ _) => true
  | Put (EvFileDone _ _ _) => true
  | Popen _ _ => true
  | Terminate => true
  | _ => false
  end.

Definition is_terminate (e : Effect) : bool :=
  match e with Terminate => true | _ => false end.

(** The commands handed to [Popen], in order, with whether the child's
    output is piped. *)
Fixpoint launched_cmds (effs : list Effect) : list (list string * bool) :=
  match effs with
  | [] => []
  | Popen cmd piped :: rest => (cmd, piped) :: launched_cmds rest
  | _ :: rest => launched_cmds rest
  end.

(** The [total_done_est] values of all progress events, in order. *)
Fixpoint total_values (effs : list Effect) : list Q :=
  match effs with
  | [] => []
  | Put (EvProgress _ td _ _ _ _ _ _ _) :: rest => td :: total_values rest
  | _ :: rest => total_values rest
  end.

(** The same observations of a file, the child printing nothing. *)
Definition mute_tick (t : Tick) : Tick :=
  mkTick (tick_cancel t) (tick_now t) None.

Definition mute (o : FileObs) : FileObs :=
  mkObs (probe o) (cancel_before o) (file_start o) (popen_error o)
        (map mute_tick (ticks o)) (exit_code o) (cancel_after o)
        (file_end o) (out_txt o).

(** The tail of a run that ends normally or by cancellation. *)
Definition closing (settings : JobSettings) (files : list (Path * FileObs))
           (parts : list string) : list Effect :=
  [ WriteText (merged_path settings (map fst files)) (merged_text parts);
    Put (EvLog ("Merged transcript: "
                +++ merged_path settings (map fst files)));
    Put EvDone ].

(** The block a queued file contributes once it has run to its end. *)
Definition file_block (fo : Path * FileObs) : string :=
  transcript_block (fst fo) (snd fo).

(** The command and pipe flag with which a job's process is launched. *)
Definition job_launch (settings : JobSettings) (j : Path * Q * FileObs)
  : list string * bool :=
  (build_cmd settings (fst (fst j)), real_progress settings).

(** An effect of the loop other than [Terminate]. *)
Definition in_loop_running (e : Effect) : Prop :=
  in_loop e = true /\ is_terminate e = false.

(** The command and pipe flag with which a queued file is launched. *)
Definition file_launch (settings : JobSettings) (fo : Path * FileObs)
  : list string * bool :=
  (build_cmd settings (fst fo), real_progress settings).

(** Cancellation is seen at the file: before it starts, or while its
    process is polled. *)
Definition cancelled_at (o : FileObs) : Prop :=
  cancel_before o = true
  \/ (cancel_before o = false /\ popen_error o = None
      /\ cancelled_during o = true).

(** The process of the file cannot be launched. *)
Definition launch_fails (o : FileObs) (msg : string) : Prop :=
  cancel_before o = false /\ popen_error o = Some msg.

(** ** Further sample data *)

Definition obs_no_launch : FileObs :=
  mkObs (probe_says "20.0") false 20 (Some "whisper-cli: not found")
        [] 0 false 20 None.

Definition queue_launch_fails : list (Path * FileObs) :=
  [(wav "a_1", obs_done); (wav "a_2", obs_no_launch); (wav "a_3", obs_fresh)].

Definition mute_file (fo : Path * FileObs) : Path * FileObs :=
  (fst fo, mute (snd fo)).

Definition mute_job (j : Path * Q * FileObs) : Path * Q * FileObs :=
  (fst j, mute (snd j)).

Definition estimated_settings : JobSettings :=
  mkSettings "whisper-cli" "ggml.bin" "out" "bg" 4 5 5
             false true false false "Auto (default)" false.

(** ** Elapsed-time labels *)

(** [int(x)] for a [float]: truncation toward zero. *)
Definition py_int (q : Q) : Z := Z.quot (Qnum q) (Z.pos (Qden q)).

(** The format [{n:02d}]: at least two characters, padded with a zero. *)
Definition fmt_02d (n : Z) : string :=
  if ((0 <=? n) && (n <? 10))%Z then "0" +++ str_of_int n else str_of_int n.

(** Lines 56-63. *)
Definition fmt_interval (seconds : Q) : string :=
  let seconds := pymax 0 seconds in
  let s := py_int seconds in
  let m := (s / 60)%Z in
  let s := (s mod 60)%Z in
  let h := (m / 60)%Z in
  let m := (m mod 60)%Z in
  if (0 <? h)%Z then
    str_of_int h +++ ":" +++ fmt_02d m +++ ":" +++ fmt_02d s
  else fmt_02d m +++ ":" +++ fmt_02d s.

(** ** Dropped paths (lines 132-156) *)

(** The [for ch in raw] loop and the flush that follows it: [out] holds
    the tokens found so far, [token] the one being read. *)
Fixpoint dnd_scan (raw : string) (out : list string) (token : string)
         (in_brace : bool) : list string :=
  match raw with
  | EmptyString =>
      match token with
      | EmptyString => out
      | _ => out ++ [token]
      end
  | String ch r =>
      if (ch =? "{")%char then dnd_scan r out EmptyString true
      else if (ch =? "}")%char then
        match token with
        | EmptyString => dnd_scan r out EmptyString false
        | _ => dnd_scan r (out ++ [token]) EmptyString false
        end
      else if isspace ch && negb in_brace then
        match token with
        | EmptyString => dnd_scan r out token in_brace
        | _ => dnd_scan r (out ++ [token]) EmptyString in_brace
        end
      else dnd_scan r out (token +++ String ch EmptyString) in_brace
  end.

Definition normalize_dnd_paths (raw : string) : list string :=
  match strip raw with
  | EmptyString => []
  | raw' => dnd_scan raw' [] EmptyString false
  end.

(** Every character of [s] satisfies [p]. *)
Fixpoint all_chars (p : ascii -> bool) (s : string) : bool :=
  match s with
  | EmptyString => true
  | String c r => p c && all_chars p r
  end.

Definition is_brace (c : ascii) : bool := (c =? "{")%char || (c =? "}")%char.

(** A path as a drop event lists it: wrapped in braces, or bare. *)
Record DndItem := mkItem {
  item_braced : bool;
  item_text : string
}.

Definition render_item (i : DndItem) : string :=
  if item_braced i then "{" +++ item_text i +++ "}" else item_text i.

(** The text is not empty and holds no brace; bare, it holds no white
    space either. *)
Definition item_ok (i : DndItem) : bool :=
  match item_text i with
  | EmptyString => false
  | _ => true
  end
  && all_chars (fun c => negb (is_brace c)) (item_text i)
  && (item_braced i || all_chars (fun c => negb (isspace c)) (item_text i)).

(** [s] starts and ends with a character that is not white space. *)
Definition trimmed (s : string) : Prop :=
  (exists c r, s = String c r /\ isspace c = false)
  /\ exists d, last_char s = Some d /\ isspace d = false.

Definition sample_drop : list DndItem :=
  [mkItem true "C:/My Music/take 1.wav"; mkItem false "C:/a.mp3";
   mkItem true "D:/b c.ogg"].

(** ** The queue (lines 37-38 and 448-484) *)

Definition SUPPORTED_AUDIO_EXTS : list string :=
  [".wav"; ".mp3"; ".ogg"; ".flac"; ".m4a"; ".aac"].

Definition MAX_QUEUE : nat := 300.

(** [str.lower] on code points below 256: the letters A-Z and the
    accented capitals 192-222 (without the multiplication sign). *)
Definition lower_char (c : ascii) : ascii :=
  if in_range 65 90 c || in_range 192 214 c || in_range 216 222 c
  then ascii_of_N (ord c + 32) else c.

Fixpoint str_lower (s : string) : string :=
  match s with
  | EmptyString => EmptyString
  | String c r => String (lower_char c) (str_lower r)
  end.

Fixpoint str_drop (n : nat) (s : string) : string :=
  match n, s with
  | O, _ => s
  | S n', String _ r => str_drop n' r
  | S _, EmptyString => EmptyString
  end.

(** [p.suffix]: what follows the stem in the name. *)
Definition suffix (p : Path) : string :=
  str_drop (String.length (stem p)) (name p).

(** [l.pop(i)] without its result, and the listbox's [delete(i)]: the
    element at [i] goes; nothing changes when there is none. *)
Fixpoint remove_at {A : Type} (i : nat) (l : list A) : list A :=
  match i, l with
  | _, [] => []
  | O, _ :: r => r
  | S i', x :: r => x :: remove_at i' r
  end.

(** The queue [self.files] and the rows of the listbox [self.lst] that
    shows it. *)
Record Queue := mkQueue {
  q_files : list Path;
  q_lst : list string
}.

Section QueueOps.

(** [Path(s)], the platform's case normalisation behind [Path.__eq__]
    (the identity on POSIX, lower case on Windows) and [Path.is_dir]. *)
Variable Path_of : string -> Path.
Variable normcase : string -> string.
Variable is_dir : Path -> bool.

Definition path_eqb (p q : Path) : bool :=
  String.eqb (normcase (path_str p)) (normcase (path_str q)).

(** [p in self.files] *)
Definition path_in (p : Path) (fs : list Path) : bool :=
  existsb (path_eqb p) fs.

Definition supported (p : Path) : bool :=
  existsb (String.eqb (str_lower (suffix p))) SUPPORTED_AUDIO_EXTS.

(** The [for s in paths] loop of [_add_paths] with its counter. *)
Fixpoint add_loop (paths : list string) (q : Queue) (added : nat)
  : Queue * nat :=
  match paths with
  | [] => (q, added)
  | s :: rest =>
      if (MAX_QUEUE <=? List.length (q_files q))%nat then (q, added)
      else
        let p := Path_of s in
        if is_dir p then add_loop rest q added
        else if negb (supported p) then add_loop rest q added
        else if negb (path_in p (q_files q)) then
          add_loop rest (mkQueue (q_files q ++ [p]) (q_lst q ++ [path_str p]))
                   (S added)
        else add_loop rest q added
  end.

(** Lines 448-464; the second component is the message logged, if any. *)
Definition _add_paths (paths : list string) (q : Queue)
  : Queue * option string :=
  let '(q', added) := add_loop paths q 0 in
  (q',
   match added with
   | O => None
   | _ => Some ("Added " +++ str_of_int (Z.of_nat added)
                +++ " file(s). Queue size: "
                +++ str_of_int (Z.of_nat (List.length (q_files q'))))
   end).

(** Lines 403-405. *)
Definition _on_drop_files (data : string) (q : Queue) : Queue :=
  fold_left (fun q p => fst (_add_paths [p] q)) (normalize_dnd_paths data) q.

End QueueOps.

(** One pass of the loop of [remove_selected]: [pop(i)] raises when
    there is no such file, and the listbox is then left alone. *)
Definition pop_row (q : Queue) (i : nat) : Queue :=
  if (i <? List.length (q_files q))%nat
  then mkQueue (remove_at i (q_files q)) (remove_at i (q_lst q))
  else q.

(** Lines 466-478, for the selected rows [sel] of the listbox. *)
Definition remove_selected (sel : list nat) (q : Queue)
  : Queue * option string :=
  match sel with
  | [] => (q, None)
  | _ =>
      let q' := fold_left pop_row (rev sel) q in
      (q', Some ("Removed " +++ str_of_int (Z.of_nat (List.length sel))
                 +++ " file(s). Queue size: "
                 +++ str_of_int (Z.of_nat (List.length (q_files q')))))
  end.

(** Lines 480-484. *)
Definition clear_queue (q : Queue) : Queue * option string :=
  (mkQueue [] [], Some "Queue cleared.").

(** The listbox shows the queued paths, row by row. *)
Definition mirrored (q : Queue) : Prop := q_lst q = map path_str (q_files q).

(** The elements of [l] whose position, counted from [k], is not in [sel]. *)
Fixpoint unselected {A : Type} (k : nat) (sel : list nat) (l : list A)
  : list A :=
  match l with
  | [] => []
  | x :: r =>
      if existsb (Nat.eqb k) sel then unselected (S k) sel r
      else x :: unselected (S k) sel r
  end.

(** The path's key under [Path.__eq__]. *)
Definition path_key (normcase : string -> string) (p : Path) : string :=
  normcase (path_str p).

(** Nothing would be added for [s] to the queue [q]. *)
Definition settled (Path_of : string -> Path) (normcase : string -> string)
           (is_dir : Path -> bool) (q : Queue) (s : string) : Prop :=
  (MAX_QUEUE <= List.length (q_files q))%nat
  \/ is_dir (Path_of s) = true
  \/ supported (Path_of s) = false
  \/ path_in normcase (Path_of s) (q_files q) = true.

(** A stand-in for [Path(s)] on names with a three-letter extension. *)
Definition toy_path (s : string) : Path :=
  mkPath s s (substring 0 (String.length s - 4) s).

Definition toy_queue : Queue :=
  mkQueue [toy_path "a.wav"; toy_path "b.mp3"; toy_path "c.ogg";
           toy_path "d.wav"]
          ["a.wav"; "b.mp3"; "c.ogg"; "d.wav"].

(** ** The progress display (lines 703-776) *)

(** Rounding to the nearest integer, ties to the even one, as the
    [f] format rounds the digit it keeps last. *)
Definition round_half_even (q : Q) : Z :=
  let f := Qfloor q in
  match Qcompare (q - inject_Z f) (1 # 2) with
  | Lt => f
  | Gt => (f + 1)%Z
  | Eq => if Z.even f then f else (f + 1)%Z
  end.

Fixpoint repeat_char (c : ascii) (n : nat) : string :=
  match n with
  | O => EmptyString
  | S n' => String c (repeat_char c n')
  end.

(** [s.rjust(width, c)] *)
Definition pad_left (c : ascii) (width : nat) (s : string) : string :=
  repeat_char c (width - String.length s) +++ s.

(** The formats [{q:W.Pf}] read on exact rationals: [prec] digits after
    the point, at least [width] characters, a negative value keeping its
    sign even when it rounds to zero.  Python rounds the binary value of
    a float, which can differ from this where a decimal tie is not a
    binary one; the display below therefore takes the rendering of
    floats as a parameter, and this one serves to run examples. *)
Definition fmt_fixed (prec width : nat) (q : Q) : string :=
  let scale := (10 ^ Z.of_nat prec)%Z in
  let n := round_half_even (Qabs q * inject_Z scale) in
  let digits :=
    str_of_int (n / scale)
    +++ match prec with
        | O => EmptyString
        | _ => "." +++ pad_left "0" prec (str_of_int (n mod scale))
        end in
  pad_left " " width (if Qlt_le_dec q 0 then "-" +++ digits else digits).

(** The figures both [_update_total] and [_update_file] compute. *)
Definition bar_pct (total_audio done_audio : Q) : Q :=
  if Qlt_le_dec 0 total_audio
  then pymin 100 (done_audio / total_audio * 100)
  else 0.

Definition speed_x (done_audio elapsed_wall : Q) : Q :=
  if Qlt_le_dec 0 elapsed_wall then done_audio / elapsed_wall else 0.

Definition remaining_wall (total_audio done_audio elapsed_wall : Q) : Q :=
  let x := speed_x done_audio elapsed_wall in
  let remaining_audio := pymax 0 (total_audio - done_audio) in
  if Qlt_le_dec 0 x then remaining_audio / x else 0.

Definition finish_wall (total_audio done_audio elapsed_wall : Q) : Q :=
  elapsed_wall + remaining_wall total_audio done_audio elapsed_wall.

Definition rate_s_per_s (done_audio elapsed_wall : Q) : Q :=
  if Qlt_le_dec 0 done_audio then elapsed_wall / done_audio else 0.

(** A line of the log widget, with the clock text [time.strftime] gave,
    and for an error line the exception whose text it shows. *)
Inductive UiLine :=
| Logged (ts msg : string)
| LoggedError (ts : string) (e : PyExn).

(** What the window shows. *)
Record Ui := mkUi {
  ui_total_progress : Q;
  ui_file_progress : Q;
  ui_total_label : string;
  ui_file_label : string;
  ui_log : list UiLine;          (* the log widget, oldest line first *)
  ui_error_boxes : list PyExn;   (* [messagebox.showerror] calls *)
  ui_cancel_button : string;     (* the state of [btn_cancel] *)
  ui_status : string             (* the text of [lbl_status] *)
}.

Section Display.

(** [format(q, "W.Pf")] for precision [P] and width [W]. *)
Variable fmt_f : nat -> nat -> Q -> string.

(** Lines 740-754. *)
Definition _update_total (total_audio done_audio elapsed_wall : Q) (ui : Ui)
  : Ui :=
  let pct := bar_pct total_audio done_audio in
  let x := speed_x done_audio elapsed_wall in
  let rem := remaining_wall total_audio done_audio elapsed_wall in
  let label :=
    "Total Progress: " +++ fmt_f 0%nat 3%nat pct +++ "% | "
    +++ fmt_interval done_audio +++ "/" +++ fmt_interval total_audio
    +++ " | " +++ fmt_f 2%nat 0%nat x +++ "x ["
    +++ fmt_interval elapsed_wall +++ "<" +++ fmt_interval rem +++ ", "
    +++ fmt_f 2%nat 0%nat (rate_s_per_s done_audio elapsed_wall) +++ "s/s] "
    +++ "time to finish all task "
    +++ fmt_interval (finish_wall total_audio done_audio elapsed_wall) in
  mkUi pct (ui_file_progress ui) label (ui_file_label ui)
       (ui_log ui) (ui_error_boxes ui) (ui_cancel_button ui) (ui_status ui).

(** Lines 756-770. *)
Definition _update_file (total_audio done_audio elapsed_wall : Q)
           (idx nfiles : nat) (fname : string) (ui : Ui) : Ui :=
  let pct := bar_pct total_audio done_audio in
  let x := speed_x done_audio elapsed_wall in
  let rem := remaining_wall total_audio done_audio elapsed_wall in
  let label :=
    "File " +++ str_of_int (Z.of_nat idx) +++ "/"
    +++ str_of_int (Z.of_nat nfiles) +++ " (" +++ fname +++ "): "
    +++ fmt_f 0%nat 3%nat pct +++ "% | "
    +++ fmt_interval done_audio +++ "/" +++ fmt_interval total_audio
    +++ " | " +++ fmt_f 2%nat 0%nat x +++ "x ["
    +++ fmt_interval elapsed_wall +++ "<" +++ fmt_interval rem +++ "] "
    +++ "time to finish current task "
    +++ fmt_interval (finish_wall total_audio done_audio elapsed_wall) in
  mkUi (ui_total_progress ui) pct (ui_total_label ui) label
       (ui_log ui) (ui_error_boxes ui) (ui_cancel_button ui) (ui_status ui).

(** Lines 772-776. *)
Definition _finish (ui : Ui) : Ui :=
  mkUi (ui_total_progress ui) (ui_file_progress ui)
       (ui_total_label ui) (ui_file_label ui)
       (ui_log ui) (ui_error_boxes ui) "disabled" "Idle".

(** Lines 486-491, [ts] being [time.strftime("%H:%M:%S")]. *)
Definition ui_log_line (line : UiLine) (ui : Ui) : Ui :=
  mkUi (ui_total_progress ui) (ui_file_progress ui)
       (ui_total_label ui) (ui_file_label ui)
       (ui_log ui ++ [line]) (ui_error_boxes ui)
       (ui_cancel_button ui) (ui_status ui).

(** Lines 706-733: one event taken from the queue.  [cancel_is_set] and
    [ts] are the cancel flag and the clock text at that moment. *)
Definition handle_event (cancel_is_set : bool) (ts : string) (ui : Ui)
           (ev : RunEvent) : Ui :=
  match ev with
  | EvLog msg => ui_log_line (Logged ts msg) ui
  | EvError e =>
      let ui := ui_log_line (LoggedError ts e) ui in
      _finish (mkUi (ui_total_progress ui) (ui_file_progress ui)
                    (ui_total_label ui) (ui_file_label ui)
                    (ui_log ui) (ui_error_boxes ui ++ [e])
                    (ui_cancel_button ui) (ui_status ui))
  | EvFileStart idx total fname dur =>
      mkUi (ui_total_progress ui) 0 (ui_total_label ui)
           ("File " +++ str_of_int (Z.of_nat idx) +++ "/"
            +++ str_of_int (Z.of_nat total) +++ " (" +++ fname
            +++ "): 0% | 00:00/" +++ fmt_interval dur
            +++ " | 0.00x [00:00<00:00] time to finish current task 00:00")
           (ui_log ui) (ui_error_boxes ui) (ui_cancel_button ui) (ui_status ui)
  | EvFileDone _ _ _ =>
      mkUi (ui_total_progress ui) 100 (ui_total_label ui) (ui_file_label ui)
           (ui_log ui) (ui_error_boxes ui) (ui_cancel_button ui) (ui_status ui)
  | EvProgress total_audio total_done_est total_elapsed
               f_total f_done f_elapsed idx nfiles fname =>
      _update_file f_total f_done f_elapsed idx nfiles fname
                   (_update_total total_audio total_done_est total_elapsed ui)
  | EvDone =>
      _finish (ui_log_line
                 (Logged ts (if cancel_is_set then "Stopped." else "All done."))
                 ui)
  end.

(** [_poll_ui_queue] draining the queue: each event is handled with the
    cancel flag and the clock text of its moment. *)
Definition poll_ui_queue (ui : Ui) (arrivals : list (bool * string * RunEvent))
  : Ui :=
  fold_left (fun ui a => handle_event (fst (fst a)) (snd (fst a)) ui (snd a))
            arrivals ui.

End Display.

(** The events of the run, as they reach the queue. *)
Fixpoint ui_events (effs : list Effect) : list RunEvent :=
  match effs with
  | [] => []
  | Put ev :: rest => ev :: ui_events rest
  | _ :: rest => ui_events rest
  end.

(** The values the total bar is set to by the progress events. *)
Fixpoint total_bar_values (effs : list Effect) : list Q :=
  match effs with
  | [] => []
  | Put (EvProgress ta td _ _ _ _ _ _ _) :: rest =>
      bar_pct ta td :: total_bar_values rest
  | _ :: rest => total_bar_values rest
  end.

Definition ui_running : Ui :=
  mkUi 0 0 "Total Progress:   0%" "File: -" [] [] "normal" "Running...".

(** ** Default tool paths (lines 20-31 and 66-95) *)

Section Defaults.

(** [getattr(sys, "_MEIPASS", None)], [Path.cwd()], the rendering
    [str(Path(a) / b)], which depends on the platform, and
    [Path.exists]. *)
Variable meipass : option string.
Variable cwd : string.
Variable path_div : string -> string -> string.
Variable path_exists : string -> bool.

Definition get_default_ffprobe : string :=
  match meipass with
  | Some (String _ _ as m) =>
      let cand := path_div (path_div m "ffmpeg") "ffprobe.exe" in
      if path_exists cand then cand else "ffprobe"
  | _ => "ffprobe"
  end.

(** The candidates below the bundle directory, in the order tried. *)
Definition bundled_whisper_cli : list string :=
  match meipass with
  | Some (String _ _ as m) =>
      [ path_div (path_div m "whisper") "whisper-cli.exe";
        path_div m "whisper-cli.exe" ]
  | _ => []
  end.

Definition whisper_cli_candidates : list string :=
  bundled_whisper_cli
  ++ [ path_div (path_div (path_div cwd "whisper-bin-x64") "Release")
                 "whisper-cli.exe";
       "D:\Whisper Desctop audio to text trascribe\models bin\whisper-cli.exe" ].

(** The chain of [if cand.exists(): return str(cand)]. *)
Fixpoint first_existing (cands : list string) : string :=
  match cands with
  | [] => EmptyString
  | c :: rest => if path_exists c then c else first_existing rest
  end.

Definition get_default_whisper_cli : string :=
  first_existing whisper_cli_candidates.

End Defaults.

(** * Properties *)

(** ** Numbers and strings *)

Lemma pymax_lower (a b : Q) : a <= pymax a b.
Proof. unfold pymax. destruct (Qlt_le_dec a b); lra. Qed.

Lemma pymax_of_le (a b : Q) : a <= b -> pymax a b == b.
Proof. unfold pymax. destruct (Qlt_le_dec a b); lra. Qed.

Lemma pymax_of_lt (a b : Q) : b < a -> pymax a b = a.
Proof. unfold pymax. destruct (Qlt_le_dec a b); [lra | reflexivity]. Qed.

Lemma pymin_upper_l (a b : Q) : pymin a b <= a.
Proof. unfold pymin. destruct (Qlt_le_dec b a); lra. Qed.

Lemma pymin_upper_r (a b : Q) : pymin a b <= b.
Proof. unfold pymin. destruct (Qlt_le_dec b a); lra. Qed.

Lemma pymin_of_le (a b : Q) : b <= a -> pymin a b == b.
Proof. unfold pymin. destruct (Qlt_le_dec b a); lra. Qed.

Lemma pct_of_raw_range (raw : Q) : 0 <= pct_of_raw raw <= 100.
Proof.
  unfold pct_of_raw, pymax, pymin.
  destruct (Qlt_le_dec 100 raw);
    repeat match goal with |- context [Qlt_le_dec ?a ?b] =>
             destruct (Qlt_le_dec a b) end; lra.
Qed.

Lemma pct_of_raw_small (raw : Q) : 0 <= raw -> raw <= 100 -> pct_of_raw raw == raw.
Proof.
  intros H0 H1. unfold pct_of_raw.
  destruct (Qlt_le_dec 100 raw); [lra |].
  rewrite pymax_of_le; rewrite pymin_of_le; lra.
Qed.

Lemma pct_of_raw_large (raw : Q) :
  100 < raw -> pct_of_raw raw == pymin 100 (raw / 100).
Proof.
  intros H. unfold pct_of_raw.
  destruct (Qlt_le_dec 100 raw); [| lra].
  apply pymax_of_le. unfold pymin.
  destruct (Qlt_le_dec (raw / 100) 100); [| lra].
  apply Qle_shift_div_l; lra.
Qed.

Lemma rstrip_with_idem (p : ascii -> bool) (s : string) :
  rstrip_with p (rstrip_with p s) = rstrip_with p s.
Proof.
  induction s as [| c r IH]; simpl; [reflexivity |].
  destruct (rstrip_with p r) as [| c' r'] eqn:E.
  - destruct (p c) eqn:Ec; simpl; [reflexivity | now rewrite Ec].
  - simpl in *. now rewrite IH.
Qed.

Lemma digit_val_nonneg (c : ascii) : isdigit c = true -> (0 <= digit_val c)%Z.
Proof.
  unfold isdigit, in_range, digit_val. intros H.
  apply andb_prop in H as [H _]. apply N.leb_le in H. lia.
Qed.

Lemma digits_val_span (s : string) :
  forall acc a b, span isdigit s = (a, b) -> (0 <= acc)%Z ->
                  (0 <= digits_val acc a)%Z.
Proof.
  induction s as [| c r IH]; simpl; intros acc a b E Hacc.
  - inversion E; subst. exact Hacc.
  - destruct (isdigit c) eqn:Ec.
    + destruct (span isdigit r) as [a' b'] eqn:Er. inversion E; subst.
      cbn [digits_val]. eapply IH; [reflexivity |].
      pose proof (digit_val_nonneg c Ec). lia.
    + inversion E; subst. exact Hacc.
Qed.

Lemma decimal_val_nonneg (ip fp : string) :
  (0 <= digits_val (digits_val 0 ip) fp)%Z -> 0 <= decimal_val ip fp.
Proof.
  intros H. unfold decimal_val, Qle. simpl. lia.
Qed.

Lemma match_number_nonneg (s : string) (g : string * string) :
  match_number s = Some g -> 0 <= float_of_group g.
Proof.
  unfold match_number, float_of_group.
  destruct (span isdigit s) as [ip r] eqn:E1.
  assert (Hip : (0 <= digits_val 0 ip)%Z)
    by (apply (digits_val_span s 0%Z ip r E1); lia).
  destruct ip as [| c ip']; [discriminate |].
  destruct r as [| d r'].
  - intros H; inversion H; subst. now apply decimal_val_nonneg.
  - destruct (Ascii.eqb d ".") eqn:Ed.
    + apply Ascii.eqb_eq in Ed; subst d.
      destruct (span isdigit r') as [fp rest] eqn:E2.
      intros H; inversion H; subst. apply decimal_val_nonneg.
      now apply (digits_val_span r' _ fp rest E2).
    + assert (Hg : Some (String c ip', EmptyString) = Some g -> 0 <= decimal_val (fst g) (snd g))
        by (intros H; inversion H; subst; now apply decimal_val_nonneg).
      destruct d as [[] [] [] [] [] [] [] []]; try exact Hg; discriminate.
Qed.

(** ** The progress parser *)

Lemma PROG_RE_search_eq (s : string) :
  PROG_RE_search s =
  match PROG_RE_match s with
  | Some g => Some g
  | None =>
      match s with
      | EmptyString => None
      | String _ r => PROG_RE_search r
      end
  end.
Proof. destruct s; reflexivity. Qed.

Lemma has_marker_eq (s : string) :
  has_marker s =
  match eat_nocase "whisper_print_progress_callback:" s with
  | Some _ => true
  | None =>
      match s with
      | EmptyString => false
      | String _ r => has_marker r
      end
  end.
Proof. destruct s; reflexivity. Qed.

Lemma PROG_RE_match_nonneg (s : string) (g : string * string) :
  PROG_RE_match s = Some g -> 0 <= float_of_group g.
Proof.
  unfold PROG_RE_match.
  destruct (eat_nocase "whisper_print_progress_callback:" s); [| discriminate].
  destruct (eat_nocase "progress" _); [| discriminate].
  destruct (eat_nocase "=" _); [| discriminate].
  apply match_number_nonneg.
Qed.

Lemma PROG_RE_search_nonneg (s : string) (g : string * string) :
  PROG_RE_search s = Some g -> 0 <= float_of_group g.
Proof.
  induction s as [| c r IH]; rewrite PROG_RE_search_eq;
    destruct (PROG_RE_match _) as [g' |] eqn:E; intros H.
  - inversion H; subst. now apply (PROG_RE_match_nonneg _ _ E).
  - discriminate.
  - inversion H; subst. now apply (PROG_RE_match_nonneg _ _ E).
  - auto.
Qed.

Lemma no_marker_no_match (s : string) :
  has_marker s = false -> PROG_RE_search s = None.
Proof.
  induction s as [| c r IH]; rewrite has_marker_eq, PROG_RE_search_eq;
    unfold PROG_RE_match;
    destruct (eat_nocase "whisper_print_progress_callback:" _);
    intros H; try discriminate; auto.
Qed.

Lemma split_lines_partial (s : string) :
  no_newline s = true -> split_lines s = [s].
Proof.
  unfold split_lines. induction s as [| c r IH]; [reflexivity |].
  cbn [no_newline split_lines_from]. intros H.
  apply andb_prop in H as [Hc Hr]. apply negb_true_iff in Hc.
  now rewrite Hc, (IH Hr).
Qed.

Lemma split_lines_completed (s : string) (c : ascii) :
  no_newline s = true -> is_newline c = true ->
  split_lines (s +++ String c EmptyString) = [s; EmptyString].
Proof.
  unfold split_lines. intros Hs Hc. induction s as [| a r IH].
  - cbn [String.append split_lines_from]. now rewrite Hc.
  - cbn [no_newline] in Hs. apply andb_prop in Hs as [Ha Hr].
    apply negb_true_iff in Ha.
    cbn [String.append split_lines_from]. now rewrite Ha, (IH Hr).
Qed.

Lemma no_newline_snoc (s : string) (c : ascii) :
  no_newline s = true -> is_newline c = false ->
  no_newline (s +++ String c EmptyString) = true.
Proof.
  intros Hs Hc. induction s as [| a r IH]; cbn [String.append no_newline].
  - now rewrite Hc.
  - cbn [no_newline] in Hs. apply andb_prop in Hs as [Ha Hr].
    now rewrite Ha, (IH Hr).
Qed.

(** C1, as the code has it.  A completed line in which the progress
    pattern matches yields a percentage in [0,100]: the matched number
    itself when it is at most 100, and the number divided by 100 (capped
    at 100) when it exceeds 100.  A line without the marker yields no
    update.  A line is scanned when its terminator is read, and a
    character that does not end the line changes nothing but the
    buffer.  A line reporting 45% yields 45, and a line reporting 150
    yields 1.5. *)
Theorem parse_progress_spec :
  (forall part g,
      PROG_RE_search part = Some g ->
      exists pct,
        parse_progress part = Some pct /\ 0 <= pct <= 100 /\
        (float_of_group g <= 100 -> pct == float_of_group g) /\
        (100 < float_of_group g -> pct == pymin 100 (float_of_group g / 100)))
  /\ (forall part, has_marker part = false -> parse_progress part = None)
  /\ (forall buf last_pct c,
         no_newline buf = true -> is_newline c = true ->
         read_output buf last_pct (Some c)
         = (EmptyString,
            match parse_progress buf with
            | Some pct => Some pct
            | None => last_pct
            end))
  /\ (forall buf last_pct c,
         no_newline buf = true -> is_newline c = false ->
         read_output buf last_pct (Some c)
         = (buf +++ String c EmptyString, last_pct))
  /\ parse_progress "whisper_print_progress_callback: progress = 45%" = Some 45
  /\ (exists pct,
         parse_progress "whisper_print_progress_callback: progress = 150"
         = Some pct /\ pct == 1.5).
Proof.
  repeat apply conj.
  - intros part g Hg. unfold parse_progress. rewrite Hg.
    pose proof (PROG_RE_search_nonneg _ _ Hg) as Hpos.
    eexists; split; [reflexivity |].
    split; [apply pct_of_raw_range |]. split; intros H.
    + now apply pct_of_raw_small.
    + now apply pct_of_raw_large.
  - intros part H. unfold parse_progress.
    now rewrite (no_marker_no_match _ H).
  - intros buf lp c Hb Hc. unfold read_output.
    now rewrite (split_lines_completed _ _ Hb Hc).
  - intros buf lp c Hb Hc. unfold read_output.
    now rewrite (split_lines_partial _ (no_newline_snoc _ _ Hb Hc)).
  - vm_compute. reflexivity.
  - eexists; split; [vm_compute; reflexivity |]. reflexivity.
Qed.

Lemma parse_progress_spec_witness :
  (exists pct,
      parse_progress "progress = 99.5%  Whisper_Print_Progress_Callback:progress=7.25%"
      = Some pct /\ pct == 7.25)
  /\ parse_progress "progress = 45%" = None
  /\ read_output "whisper_print_progress_callback: progress = 45%" None
                 (Some "010"%char)
     = (EmptyString, Some 45).
Proof.
  destruct parse_progress_spec as [Hmatch [Hnone [Hline _]]]. split; [| split].
  - destruct (Hmatch
                "progress = 99.5%  Whisper_Print_Progress_Callback:progress=7.25%"
                ("7", "25") eq_refl) as [pct [Hp [_ [Hsmall _]]]].
    exists pct. split; [exact Hp |].
    rewrite Hsmall; vm_compute; [reflexivity | discriminate].
  - apply Hnone. reflexivity.
  - apply (Hline "whisper_print_progress_callback: progress = 45%" None
                 "010"%char); reflexivity.
Defined.

(** C1 as stated fails: a raw value of 150 is not clamped to 100. *)
Lemma raw_150_is_not_clamped :
  exists pct,
    parse_progress "whisper_print_progress_callback: progress = 150" = Some pct
    /\ ~ pct == 100.
Proof.
  eexists; split; [vm_compute; reflexivity |].
  intros H. vm_compute in H. discriminate.
Qed.

(** ** The basename deriver *)

Lemma sub_digit_groups_plain (t : string) :
  ends_plain t = true -> sub_digit_groups t = t.
Proof.
  unfold ends_plain, last_char, sub_digit_groups.
  destruct (rev (list_ascii_of_string t)) as [| c rs] eqn:E; simpl;
    [discriminate |].
  intros H. apply andb_prop in H as [Hd Hn].
  apply negb_true_iff in Hd, Hn. rewrite Hn, Hd, andb_false_r.
  rewrite <- E, rev_involutive. apply string_of_list_ascii_of_string.
Qed.

Example basename_of_numbered_parts :
  derive_merged_basename [wav "lecture_01"; wav "lecture_02"; wav "lecture_03"]
  = "lecture".
Proof. reflexivity. Qed.

Example basename_without_common_prefix :
  derive_merged_basename [wav "a"; wav "b"] = "merged".
Proof. reflexivity. Qed.

Example basename_keeps_inner_digits :
  derive_merged_basename [wav "take2_final-03."; wav "take2_final-04"]
  = "take2_final".
Proof. reflexivity. Qed.

(** C2, as the code has it.  For one queued file the deriver returns the
    stem with trailing separators trimmed, a trailing run of digit
    groups (an optional separator followed by digits) removed,
    separators trimmed again, and "merged" when nothing is left.  When
    the trimmed stem ends in neither a digit nor a line feed the result
    is the trimmed stem itself; the single name "talk" yields "talk". *)
Theorem single_file_basename (f : Path) :
  derive_merged_basename [f]
  = or_merged (rstrip_with is_trim
                 (sub_digit_groups (rstrip_with is_trim (stem f))))
  /\ (ends_plain (rstrip_with is_trim (stem f)) = true ->
      derive_merged_basename [f] = rstrip_with is_trim (stem f))
  /\ derive_merged_basename [wav "talk"] = "talk".
Proof.
  split; [reflexivity | split; [| reflexivity]].
  intros H. unfold derive_merged_basename, or_merged. cbn [map].
  rewrite (sub_digit_groups_plain _ H), rstrip_with_idem.
  destruct (rstrip_with is_trim (stem f)); [discriminate H | reflexivity].
Qed.

Lemma single_file_basename_witness :
  derive_merged_basename [wav "part 2 (final)."] = "part 2 (final)".
Proof.
  apply (proj1 (proj2 (single_file_basename (wav "part 2 (final).")))).
  reflexivity.
Defined.

(** C2 as stated fails: a single file's trailing digit group is removed. *)
Lemma single_file_digits_removed :
  derive_merged_basename [wav "lecture_01"] = "lecture"
  /\ derive_merged_basename [wav "lecture_01"]
     <> rstrip_with is_trim (stem (wav "lecture_01")).
Proof. split; [reflexivity | vm_compute; discriminate]. Qed.

(** ** The duration prober *)




(** ** The polling loop *)

Lemma scan_parts_ok (parts : list string) :
  forall last_pct, pct_ok last_pct -> pct_ok (scan_parts last_pct parts).
Proof.
  induction parts as [| part rest IH]; intros lp H; cbn [scan_parts];
    [exact H |].
  apply IH. unfold parse_progress.
  destruct (PROG_RE_search part); [apply pct_of_raw_range | exact H].
Qed.

Lemma read_output_ok (buf : string) (last_pct : option Q) (ch : option ascii) :
  pct_ok last_pct -> pct_ok (snd (read_output buf last_pct ch)).
Proof.
  intros H. unfold read_output. destruct ch; [| exact H].
  cbn [snd]. now apply scan_parts_ok.
Qed.

Lemma done_file_of_le_dur (speed dur : Q) (last_pct : option Q) (elapsed : Q) :
  pct_ok last_pct -> done_file_of speed dur last_pct elapsed <= dur.
Proof.
  intros H. unfold done_file_of.
  destruct (Qlt_le_dec 0 dur) as [Hd | Hd]; [| apply pymin_upper_l].
  destruct last_pct as [p |]; [| apply pymin_upper_l].
  cbn in H. setoid_replace dur with (dur * 1) at 2 by ring.
  apply Qmult_le_l; [exact Hd |]. apply Qle_shift_div_r; lra.
Qed.

Section PollLoopFacts.

Variable settings : JobSettings.
Variables total_audio total_start done_before speed : Q.
Variables idx nfiles : nat.
Variable audio : Path.
Variables dur t0 : Q.

Local Abbreviation loop :=
  (poll_loop settings total_audio total_start done_before speed
             idx nfiles audio dur t0).
Local Abbreviation after_read := (observe_output settings).

Lemma poll_loop_step (buf : string) (lp : option Q) (ld : Q)
      (t : Tick) (ts : list Tick) :
  loop buf lp ld (t :: ts) =
  if tick_cancel t then ([Terminate], true)
  else
    let r := after_read buf lp t in
    let df := done_file_of speed dur (snd r) (tick_now t - t0) in
    if Qlt_le_dec ld df then
      (Put (EvProgress total_audio (done_before + df) (tick_now t - total_start)
                       dur df (tick_now t - t0) idx nfiles (name audio))
         :: fst (loop (fst r) (snd r) df ts),
       snd (loop (fst r) (snd r) df ts))
    else loop (fst r) (snd r) ld ts.
Proof.
  cbn [poll_loop].
  destruct (tick_cancel t); [reflexivity |].
  destruct (observe_output settings buf lp t) as [b l]. cbn [fst snd].
  destruct (Qlt_le_dec ld _); [| reflexivity].
  now destruct (poll_loop _ _ _ _ _ _ _ _ _ _ b l _ ts).
Qed.

Lemma after_read_ok (buf : string) (lp : option Q) (t : Tick) :
  pct_ok lp -> pct_ok (snd (after_read buf lp t)).
Proof.
  intros H. unfold observe_output.
  destruct (real_progress settings); [now apply read_output_ok | exact H].
Qed.

(** The loop reports cancellation exactly when some iteration sees the
    flag set. *)
Lemma poll_loop_cancelled (ts : list Tick) :
  forall buf lp ld, snd (loop buf lp ld ts) = existsb tick_cancel ts.
Proof.
  induction ts as [| t ts IH]; intros buf lp ld; [reflexivity |].
  rewrite poll_loop_step. cbn [existsb].
  destruct (tick_cancel t); [reflexivity |]. cbn zeta.
  destruct (Qlt_le_dec ld _); cbn [snd orb]; apply IH.
Qed.

Lemma poll_loop_effects (ts : list Tick) :
  forall buf lp ld,
    pct_ok lp ->
    Forall (poll_effect total_audio done_before idx nfiles audio dur)
           (fst (loop buf lp ld ts)).
Proof.
  induction ts as [| t ts IH]; intros buf lp ld Hok; [constructor |].
  rewrite poll_loop_step.
  destruct (tick_cancel t); [repeat constructor |]. cbn zeta.
  pose proof (after_read_ok buf lp t Hok) as Hok'.
  destruct (Qlt_le_dec ld _); cbn [fst]; [| now apply IH].
  constructor; [| now apply IH].
  right. do 3 eexists. split; [reflexivity |].
  now apply done_file_of_le_dur.
Qed.

(** The forwarded values of this file rise strictly, starting above
    the last forwarded value. *)
Lemma poll_loop_increasing (ts : list Tick) :
  forall buf lp ld,
    StronglySorted Qlt (ld :: done_values idx (fst (loop buf lp ld ts))).
Proof.
  induction ts as [| t ts IH]; intros buf lp ld.
  - repeat constructor.
  - rewrite poll_loop_step.
    destruct (tick_cancel t); [repeat constructor |]. cbn zeta.
    destruct (Qlt_le_dec ld _) as [Hlt | Hle]; cbn [fst]; [| apply IH].
    cbn [done_values]. rewrite Nat.eqb_refl.
    specialize (IH (fst (after_read buf lp t)) (snd (after_read buf lp t))
                   (done_file_of speed dur (snd (after_read buf lp t))
                                 (tick_now t - t0))).
    constructor; [exact IH |].
    constructor; [exact Hlt |].
    apply StronglySorted_inv in IH as [_ IH].
    eapply Forall_impl; [| exact IH].
    intros a Ha. eapply Qlt_trans; eassumption.
Qed.

End PollLoopFacts.

(** ** One file *)

Lemma done_values_app (k : nat) (xs ys : list Effect) :
  done_values k (xs ++ ys) = done_values k xs ++ done_values k ys.
Proof.
  induction xs as [| e xs IH]; [reflexivity |].
  destruct e as [[] | | |]; cbn [done_values app]; try exact IH.
  destruct (Nat.eqb idx k); cbn [app]; now rewrite IH.
Qed.

Lemma poll_effect_benign ta db i n a d (e : Effect) :
  poll_effect ta db i n a d e -> benign e /\ is_popen e = false.
Proof.
  intros [-> | [te [df [fe [-> _]]]]]; repeat split.
Qed.

Lemma poll_effects_other_file ta db i n a d (effs : list Effect) (k : nat) :
  Forall (poll_effect ta db i n a d) effs -> k <> i -> done_values k effs = [].
Proof.
  intros H Hk. induction H as [| e effs He _ IH]; [reflexivity |].
  destruct He as [-> | [te [df [fe [-> _]]]]]; cbn [done_values]; [exact IH |].
  destruct (Nat.eqb_spec i k); [congruence | exact IH].
Qed.

Section OneFileFacts.

Variable settings : JobSettings.
Variable nfiles : nat.
Variables total_audio total_start : Q.
Variable idx : nat.
Variable st : LoopState.
Variable audio : Path.
Variable dur : Q.
Variable o : FileObs.

Local Abbreviation polled :=
  (fst (poll_loop settings total_audio total_start
                  (total_done_audio st) (speed_est st)
                  idx nfiles audio dur (file_start o)
                  EmptyString None 0 (ticks o))).
Local Abbreviation started := (Put (EvFileStart idx nfiles (name audio) dur)).
Local Abbreviation launched :=
  (Popen (build_cmd settings audio) (real_progress settings)).
Local Abbreviation step :=
  (process_file settings nfiles total_audio total_start idx st audio dur o).

(** A file whose process runs to its end is merged, reported finished
    and counted, whatever is in its observations otherwise. *)
Lemma process_file_completes :
  completes o = true ->
  step = (started :: launched :: polled
            ++ [Put (EvFileDone idx nfiles (name audio))],
          Next (mkLoop (total_done_audio st + dur)
                       (update_speed (speed_est st) dur (file_wall_of o))
                       (merged_parts st ++ [transcript_block audio o]))).
Proof.
  unfold completes, cancelled_during. intros H.
  apply andb_prop in H as [H Hc]. apply andb_prop in H as [Hb Hp].
  apply negb_true_iff in Hb, Hc. apply orb_false_iff in Hc as [Ht Ha].
  unfold process_file. rewrite Hb.
  destruct (popen_error o); [discriminate |].
  pose proof (poll_loop_cancelled settings total_audio total_start
                (total_done_audio st) (speed_est st) idx nfiles audio dur
                (file_start o) (ticks o) EmptyString None 0) as Hs.
  destruct (poll_loop _ _ _ _ _ _ _ _ _ _ _ _ _ _) as [effs c].
  cbn [fst snd] in *. subst c. now rewrite Ht, Ha.
Qed.

(** A file during which cancellation is seen is abandoned. *)
Lemma process_file_cancelled :
  cancel_before o = false -> popen_error o = None ->
  cancelled_during o = true ->
  step = (started :: launched :: polled, Break).
Proof.
  unfold cancelled_during. intros Hb Hp Hc.
  unfold process_file. rewrite Hb, Hp.
  pose proof (poll_loop_cancelled settings total_audio total_start
                (total_done_audio st) (speed_est st) idx nfiles audio dur
                (file_start o) (ticks o) EmptyString None 0) as Hs.
  destruct (poll_loop _ _ _ _ _ _ _ _ _ _ _ _ _ _) as [effs c].
  cbn [fst snd] in *. subst c. now rewrite Hc.
Qed.

(** The shapes the effects of one iteration can take. *)
Lemma process_file_shape :
  fst step = [] \/ fst step = [started] \/
  fst step = started :: launched :: polled \/
  fst step = started :: launched :: polled
               ++ [Put (EvFileDone idx nfiles (name audio))].
Proof.
  unfold process_file.
  destruct (cancel_before o); [now left |].
  destruct (popen_error o); [now right; left |].
  destruct (poll_loop _ _ _ _ _ _ _ _ _ _ _ _ _ _) as [effs c].
  destruct (c || cancel_after o); cbn [fst]; auto.
Qed.

Lemma polled_effects :
  Forall (poll_effect total_audio (total_done_audio st) idx nfiles audio dur)
         polled.
Proof. now apply poll_loop_effects. Qed.

Lemma process_file_benign : Forall benign (fst step).
Proof.
  assert (Hp : Forall benign polled).
  { eapply Forall_impl; [| exact polled_effects].
    intros e He. now apply poll_effect_benign in He. }
  destruct process_file_shape as [E | [E | [E | E]]]; rewrite E;
    repeat (constructor; [now split |]); auto.
  apply Forall_app; split; [exact Hp | repeat constructor].
Qed.

Lemma process_file_done_values (k : nat) :
  done_values k (fst step) = [] \/
  done_values k (fst step) = done_values k polled.
Proof.
  destruct process_file_shape as [E | [E | [E | E]]]; rewrite E;
    cbn [done_values]; auto.
  right. rewrite done_values_app. cbn [done_values]. apply app_nil_r.
Qed.

(** Within one file the forwarded values rise strictly from above 0. *)
Lemma process_file_increasing :
  StronglySorted Qlt (0 :: done_values idx (fst step)).
Proof.
  destruct (process_file_done_values idx) as [E | E]; rewrite E.
  - repeat constructor.
  - apply poll_loop_increasing.
Qed.

(** One file's iteration emits no progress event of another file. *)
Lemma process_file_other_file (k : nat) :
  k <> idx -> done_values k (fst step) = [].
Proof.
  intros Hk. destruct (process_file_done_values k) as [E | E]; rewrite E;
    [reflexivity |].
  eapply poll_effects_other_file; [exact polled_effects | exact Hk].
Qed.

(** The estimate carried by a progress event is bounded by the finished
    files' durations plus the current file's. *)
Lemma process_file_progress ta td te d df fe i n nm :
  In (Put (EvProgress ta td te d df fe i n nm)) (fst step) ->
  ta = total_audio /\ td <= total_done_audio st + dur.
Proof.
  intros Hin.
  assert (Hp : In (Put (EvProgress ta td te d df fe i n nm)) polled).
  { destruct process_file_shape as [E | [E | [E | E]]]; rewrite E in Hin.
    - destruct Hin.
    - destruct Hin as [H | []]; discriminate.
    - destruct Hin as [H | [H | H]]; try discriminate; exact H.
    - destruct Hin as [H | [H | H]]; try discriminate.
      apply in_app_or in H as [H | [H | []]]; [exact H | discriminate]. }
  pose proof polled_effects as Hall. rewrite Forall_forall in Hall.
  destruct (Hall _ Hp) as [H | [te' [df' [fe' [H Hle]]]]]; [discriminate |].
  inversion H; subst. split; [reflexivity | lra].
Qed.

End OneFileFacts.

(** ** The loop over the files *)

Lemma fold_left_Qplus_ge (l : list Q) :
  forall a, Forall (fun x => 0 <= x) l -> a <= fold_left Qplus l a.
Proof.
  induction l as [| x l IH]; intros a H; cbn [fold_left]; [lra |].
  inversion H; subst. eapply Qle_trans; [| now apply IH]. lra.
Qed.

Lemma filter_popen_polled ta db i n a d (effs : list Effect) :
  Forall (poll_effect ta db i n a d) effs -> filter is_popen effs = [].
Proof.
  intros H. induction H as [| e effs He _ IH]; [reflexivity |].
  apply poll_effect_benign in He as [_ He]. cbn [filter]. now rewrite He.
Qed.

Section RunFacts.

Variable settings : JobSettings.
Variable nfiles : nat.
Variables total_audio total_start : Q.

Local Abbreviation run := (run_files settings nfiles total_audio total_start).
Local Abbreviation file_step :=
  (process_file settings nfiles total_audio total_start).

Lemma run_files_cons (idx : nat) (st : LoopState) (audio : Path) (dur : Q)
      (o : FileObs) (rest : list (Path * Q * FileObs)) :
  run idx st ((audio, dur, o) :: rest) =
  match file_step idx st audio dur o with
  | (effs, Next st') =>
      (effs ++ fst (run (S idx) st' rest), snd (run (S idx) st' rest))
  | (effs, Break) => (effs, ret (merged_parts st, true))
  | (effs, Raised e) => (effs, raise e)
  end.
Proof.
  cbn [run_files].
  destruct (process_file _ _ _ _ _ _ _ _ _) as [effs [st' | | e]];
    try reflexivity.
  now destruct (run_files _ _ _ _ _ _ _).
Qed.

Lemma run_files_benign (jobs : list (Path * Q * FileObs)) :
  forall idx st, Forall benign (fst (run idx st jobs)).
Proof.
  induction jobs as [| [[audio dur] o] rest IH]; intros idx st;
    [constructor |].
  rewrite run_files_cons.
  pose proof (process_file_benign settings nfiles total_audio total_start
                idx st audio dur o) as Hb.
  destruct (process_file _ _ _ _ _ _ _ _ _) as [effs [st' | | e]];
    cbn [fst] in *; auto.
  apply Forall_app; split; auto.
Qed.

(** Per file, the forwarded values of the whole loop rise strictly from
    above 0, and files already passed get no further progress events. *)
Lemma run_files_increasing (jobs : list (Path * Q * FileObs)) :
  forall idx st k,
    StronglySorted Qlt (0 :: done_values k (fst (run idx st jobs)))
    /\ ((k < idx)%nat -> done_values k (fst (run idx st jobs)) = []).
Proof.
  induction jobs as [| [[audio dur] o] rest IH]; intros idx st k.
  - split; [repeat constructor | reflexivity].
  - rewrite run_files_cons.
    pose proof (process_file_increasing settings nfiles total_audio
                  total_start idx st audio dur o) as Hinc.
    pose proof (process_file_other_file settings nfiles total_audio
                  total_start idx st audio dur o k) as Hoth.
    destruct (process_file _ _ _ _ _ _ _ _ _) as [effs out]. cbn [fst] in *.
    assert (Hone : StronglySorted Qlt (0 :: done_values k effs)).
    { destruct (Nat.eq_dec k idx) as [-> | Hk]; [exact Hinc |].
      rewrite (Hoth Hk). repeat constructor. }
    assert (Hlow : (k < idx)%nat -> done_values k effs = [])
      by (intros Hk; apply Hoth; lia).
    destruct out as [st' | | e]; cbn [fst]; try (split; assumption).
    destruct (IH (S idx) st' k) as [IHs IHl].
    rewrite done_values_app. split.
    + destruct (Nat.eq_dec k idx) as [-> | Hk].
      * rewrite IHl by lia. now rewrite app_nil_r.
      * now rewrite (Hoth Hk).
    + intros Hk. rewrite (Hlow Hk), IHl by lia. reflexivity.
Qed.

(** While the remaining durations still fit under [total_audio], so
    does every estimate. *)
Lemma run_files_bounded (jobs : list (Path * Q * FileObs)) :
  forall idx st ta td te d df fe i n nm,
    Forall (fun x => 0 <= x) (map job_dur jobs) ->
    fold_left Qplus (map job_dur jobs) (total_done_audio st) <= total_audio ->
    In (Put (EvProgress ta td te d df fe i n nm)) (fst (run idx st jobs)) ->
    ta = total_audio /\ td <= total_audio.
Proof.
  induction jobs as [| [[audio dur] o] rest IH];
    intros idx st ta td te d df fe i n nm Hpos Hsum Hin; [destruct Hin |].
  cbn [map fold_left] in Hpos, Hsum.
  change (job_dur (audio, dur, o)) with dur in Hsum. inversion Hpos as [| x l Hdur Hrest]; subst.
  pose proof (fold_left_Qplus_ge _ (total_done_audio st + dur) Hrest) as Hge.
  rewrite run_files_cons in Hin.
  pose proof (process_file_progress settings nfiles total_audio total_start
                idx st audio dur o ta td te d df fe i n nm) as Hone.
  destruct (process_file _ _ _ _ _ _ _ _ _) as [effs out] eqn:E.
  cbn [fst] in Hone.
  assert (Hhere : In (Put (EvProgress ta td te d df fe i n nm)) effs ->
                  ta = total_audio /\ td <= total_audio).
  { intros H. destruct (Hone H) as [-> Hle]. split; [reflexivity | lra]. }
  destruct out as [st' | | e]; cbn [fst] in Hin; auto.
  apply in_app_or in Hin as [Hin | Hin]; [auto |].
  eapply (IH (S idx) st'); [exact Hrest | | exact Hin].
  destruct (cancel_before o) eqn:Eb;
    [unfold process_file in E; rewrite Eb in E; discriminate |].
  assert (Hst : total_done_audio st' = total_done_audio st + dur).
  { unfold process_file in E. rewrite Eb in E.
    destruct (popen_error o); [discriminate |].
    destruct (poll_loop _ _ _ _ _ _ _ _ _ _ _ _ _ _) as [pe c].
    destruct (c || cancel_after o); inversion E; reflexivity. }
  now rewrite Hst.
Qed.

(** Files that all run to their end are all merged, in order. *)
Lemma run_files_completed (jobs : list (Path * Q * FileObs)) :
  forall idx st rest,
    Forall (fun j => completes (snd j) = true) jobs ->
    exists st',
      snd (run idx st (jobs ++ rest))
      = snd (run (idx + List.length jobs)%nat st' rest)
      /\ merged_parts st' = merged_parts st ++ map job_block jobs
      /\ List.length (filter is_popen (fst (run idx st (jobs ++ rest))))
         = (List.length jobs
            + List.length
                (filter is_popen
                        (fst (run (idx + List.length jobs)%nat st' rest))))%nat.
Proof.
  induction jobs as [| [[audio dur] o] jobs IH]; intros idx st rest Hall.
  - exists st. cbn [app List.length map]. rewrite Nat.add_0_r, app_nil_r. auto.
  - inversion Hall as [| j l Hc Hrest]; subst. cbn [snd] in Hc.
    cbn [app]. rewrite run_files_cons, (process_file_completes _ _ _ _ _ _ _ _ _ Hc).
    destruct (IH (S idx) (mkLoop (total_done_audio st + dur)
                                 (update_speed (speed_est st) dur (file_wall_of o))
                                 (merged_parts st ++ [transcript_block audio o]))
                 rest Hrest) as [st' [Hs [Hm Hp]]].
    exists st'. cbn [fst snd List.length map].
    rewrite Nat.add_succ_r. cbn [Nat.add] in Hs, Hp.
    split; [exact Hs |]. split.
    + rewrite Hm. cbn [merged_parts]. now rewrite <- app_assoc.
    + cbn [filter is_popen app List.length].
      rewrite !filter_app, !length_app, Hp.
      erewrite filter_popen_polled by (now apply poll_loop_effects).
      reflexivity.
Qed.

End RunFacts.

(** ** Probing the queue *)

Lemma probe_ok_duration (f : Path) (o : FileObs) :
  probe_ok o = true -> get_duration_seconds f (probe o) = inr (duration_of o).
Proof.
  unfold probe_ok, get_duration_seconds, duration_of, run_capture.
  intros H. apply andb_prop in H as [Hrc Hp]. rewrite Hrc. cbn [negb].
  now destruct (py_float _).
Qed.

Lemma probe_not_ok_raises (f : Path) (o : FileObs) :
  probe_ok o = false -> exists e, get_duration_seconds f (probe o) = inl e.
Proof.
  unfold probe_ok, get_duration_seconds, run_capture.
  destruct (returncode (probe o) =? 0)%Z; cbn [negb andb];
    [| intros _; eexists; reflexivity].
  destruct (py_float _); [discriminate | intros _; eexists; reflexivity].
Qed.

Lemma probe_all_ok (files : list (Path * FileObs)) :
  Forall (fun fo => probe_ok (snd fo) = true) files ->
  probe_all files = inr (map probed files).
Proof.
  induction 1 as [| [f o] files Ho _ IH]; [reflexivity |].
  cbn [probe_all]. cbn [snd] in Ho.
  now rewrite (probe_ok_duration f o Ho), IH.
Qed.

Lemma probe_all_fails (files : list (Path * FileObs)) :
  Exists (fun fo => probe_ok (snd fo) = false) files ->
  exists e, probe_all files = inl e.
Proof.
  induction files as [| [f o] files IH]; intros H; [inversion H |].
  cbn [probe_all].
  destruct (probe_ok o) eqn:Eo.
  - rewrite (probe_ok_duration f o Eo). cbn [bind].
    inversion H as [x l Hx | x l Hx]; subst; [cbn in Hx; congruence |].
    destruct (IH Hx) as [e He]. rewrite He. now exists e.
  - destruct (probe_not_ok_raises f o Eo) as [e He]. rewrite He. now exists e.
Qed.

Lemma probe_all_nonneg (files : list (Path * FileObs)) :
  forall jobs, probe_all files = inr jobs ->
               Forall (fun x => 0 <= x) (map job_dur jobs).
Proof.
  induction files as [| [f o] files IH]; intros jobs H; cbn [probe_all] in H.
  - inversion H; subst. constructor.
  - unfold get_duration_seconds, run_capture in H.
    destruct (negb _); [discriminate |].
    destruct (py_float _) as [x |]; [| discriminate]. cbn [bind ret] in H.
    destruct (probe_all files) as [e | ds]; [discriminate |].
    cbn [bind ret] in H. inversion H; subst. cbn [map].
    constructor; [apply pymax_lower | now apply IH].
Qed.

Lemma increasing_is_nondecreasing (l : list Q) :
  StronglySorted Qlt l -> StronglySorted Qle l.
Proof.
  induction 1 as [| a l _ IH Hall]; constructor; [exact IH |].
  eapply Forall_impl; [| exact Hall]. intros b Hb. now apply Qlt_le_weak.
Qed.

(** ** The exit status plays no part *)

Lemma same_but_exit_refl (o : FileObs) : same_but_exit o o.
Proof. exists (exit_code o). now destruct o. Qed.

Lemma set_exit_codes_agree (rcs : list Z) :
  forall files, Forall2 files_agree files (set_exit_codes rcs files).
Proof.
  assert (Hrefl : forall files, Forall2 files_agree files files).
  { induction files as [| [f o] files IH]; constructor; [| exact IH].
    split; [reflexivity | apply same_but_exit_refl]. }
  induction rcs as [| rc rcs IH]; intros [| [f o] files]; cbn [set_exit_codes];
    try apply Hrefl.
  constructor; [| apply IH]. split; [reflexivity | now exists rc].
Qed.

Lemma probe_all_agree (files files' : list (Path * FileObs)) :
  Forall2 files_agree files files' ->
  match probe_all files, probe_all files' with
  | inl e, inl e' => e = e'
  | inr jobs, inr jobs' => Forall2 jobs_agree jobs jobs'
  | _, _ => False
  end.
Proof.
  induction 1 as [| [f o] [f' o'] files files' [Hf [rc Ho]] _ IH];
    [constructor |].
  cbn [fst snd] in Hf, Ho. subst f' o'. cbn [probe_all].
  change (probe (with_exit_code rc o)) with (probe o).
  destruct (get_duration_seconds f (probe o)) as [e | d]; [reflexivity |].
  cbn [bind].
  destruct (probe_all files) as [e | jobs], (probe_all files') as [e' | jobs'];
    cbn [bind ret]; try exact IH.
  constructor; [| exact IH]. split; [reflexivity | now exists rc].
Qed.

Lemma process_file_exit_code settings nfiles ta ts idx st audio dur o rc :
  process_file settings nfiles ta ts idx st audio dur (with_exit_code rc o)
  = process_file settings nfiles ta ts idx st audio dur o.
Proof. reflexivity. Qed.

Lemma run_files_agree settings nfiles ta ts (jobs jobs' : list (Path * Q * FileObs)) :
  Forall2 jobs_agree jobs jobs' ->
  forall idx st,
    run_files settings nfiles ta ts idx st jobs
    = run_files settings nfiles ta ts idx st jobs'.
Proof.
  induction 1 as [| [[f d] o] [[f' d'] o'] jobs jobs' [Hf [rc Ho]] _ IH];
    intros idx st; [reflexivity |].
  cbn [fst snd] in Hf, Ho. inversion Hf; subst f' d' o'.
  rewrite !run_files_cons, process_file_exit_code.
  destruct (process_file _ _ _ _ _ _ _ _ _) as [effs [st' | | e]];
    try reflexivity.
  now rewrite IH.
Qed.

Lemma jobs_agree_durations (jobs jobs' : list (Path * Q * FileObs)) :
  Forall2 jobs_agree jobs jobs' -> sum_durations jobs = sum_durations jobs'.
Proof.
  intros H. unfold sum_durations. f_equal.
  induction H as [| j j' jobs jobs' [Hf _] _ IH]; [reflexivity |].
  cbn [map]. now rewrite Hf, IH.
Qed.

Lemma files_agree_paths (files files' : list (Path * FileObs)) :
  Forall2 files_agree files files' ->
  map fst files = map fst files' /\ List.length files = List.length files'.
Proof.
  induction 1 as [| fo fo' files files' [Hf _] _ [IHm IHl]]; [now split |].
  cbn [map List.length]. now rewrite Hf, IHm, IHl.
Qed.

(** ** The run as a whole *)

Lemma tail_has_no_progress (k : nat) (effs : list Effect) path text msg :
  done_values k (effs ++ [WriteText path text; Put (EvLog msg); Put EvDone])
  = done_values k effs.
Proof. rewrite done_values_app. apply app_nil_r. Qed.

(** The effects of a run whose probes succeed, in terms of the loop. *)
Lemma worker_effects settings t0 files jobs :
  probe_all files = inr jobs ->
  exists ta effs r,
    run_files settings (List.length files) ta t0 1%nat initial_state jobs
    = (effs, r)
    /\ ta == sum_durations jobs
    /\ (effects (_worker settings t0 files) = effs ++ match r with
         | inl e => [Put (EvError e)]
         | inr (parts, _) =>
             [ WriteText (merged_path settings (map fst files))
                         (merged_text parts);
               Put (EvLog ("Merged transcript: "
                           +++ merged_path settings (map fst files)));
               Put EvDone ]
         end)
    /\ cancel_set (_worker settings t0 files)
       = match r with inl _ => false | inr (_, c) => c end.
Proof.
  intros Hp. unfold _worker. rewrite Hp.
  set (s := sum_durations jobs).
  exists (if Qeq_bool s 0 then 0 else s).
  destruct (run_files _ _ _ _ _ _ _) as [effs r] eqn:E.
  exists effs, r. split; [reflexivity |]. split.
  - destruct (Qeq_bool s 0) eqn:Es; [| reflexivity].
    apply Qeq_bool_iff in Es. now rewrite Es.
  - destruct r as [e | [parts c]]; split; reflexivity.
Qed.

(** C4.  If the duration probe fails for some queued file, the run's
    only effect is one error event: no transcription process is
    launched and no merged file is written; the observer is shown the
    error. *)
Theorem probe_failure_fails_run settings t0 files :
  Exists (fun fo => probe_ok (snd fo) = false) files ->
  exists e,
    effects (_worker settings t0 files) = [Put (EvError e)]
    /\ filter is_popen (effects (_worker settings t0 files)) = []
    /\ filter is_write (effects (_worker settings t0 files)) = []
    /\ poll_ui_report (cancel_set (_worker settings t0 files)) (EvError e)
       = Some (ErrorBox e).
Proof.
  intros H. destruct (probe_all_fails files H) as [e He].
  exists e. unfold _worker. rewrite He. repeat split.
Qed.

Lemma probe_failure_fails_run_witness :
  exists e, effects (_worker sample_settings 0 queue_probe_fails)
            = [Put (EvError e)].
Proof.
  destruct (probe_failure_fails_run sample_settings 0 queue_probe_fails)
    as [e [He _]].
  - apply Exists_cons_tl, Exists_cons_hd. reflexivity.
  - exists e. exact He.
Defined.



(** A child that prints a 50% line for a 10 s file: the last value
    forwarded for that file is 5 s. *)
Example real_progress_reaches_half :
  last (done_values 1 (effects (_worker sample_settings 0 [(wav "a", obs_done)])))
       0 == 5.
Proof. vm_compute. reflexivity. Qed.

(** C6.  For every file of a run, the completed-seconds values carried
    by the progress events forwarded for that file rise strictly, each
    exceeding the previously forwarded one (0 before the first), whatever
    the child prints; in particular the sequence is non-decreasing. *)
Theorem forwarded_progress_is_monotone settings t0 files k :
  StronglySorted Qlt (0 :: done_values k (effects (_worker settings t0 files)))
  /\ StronglySorted Qle (done_values k (effects (_worker settings t0 files))).
Proof.
  assert (H : StronglySorted Qlt
                (0 :: done_values k (effects (_worker settings t0 files)))).
  { destruct (probe_all files) as [e | jobs] eqn:Hp.
    - unfold _worker. rewrite Hp. repeat constructor.
    - destruct (worker_effects settings t0 files jobs Hp)
        as [ta [effs [r [E [_ [He _]]]]]].
      rewrite He, done_values_app.
      replace (done_values k match r with
                             | inl e => [Put (EvError e)]
                             | inr (parts, _) => _
                             end) with (@nil Q)
        by (now destruct r as [e | [parts c]]).
      rewrite app_nil_r.
      pose proof (run_files_increasing settings (List.length files) ta t0
                    jobs 1%nat initial_state k) as [Hs _].
      now rewrite E in Hs. }
  split; [exact H |].
  apply StronglySorted_inv in H as [H _].
  now apply increasing_is_nondecreasing.
Qed.


(** C8.  A run starts with the throughput estimate 0.20.  A file that
    runs to its end with a positive duration replaces the estimate by
    0.7 times the estimate plus 0.3 times duration over the file's wall
    time (the clock difference, which the code floors at 0.001 s); a
    file of duration zero leaves it unchanged.  From 0.20, a duration of
    100 and a wall time of 50 give 0.74. *)
Theorem speed_estimate_update settings nfiles ta ts idx st audio dur o :
  completes o = true ->
  speed_est initial_state == 0.20
  /\ (exists effs st',
         process_file settings nfiles ta ts idx st audio dur o
         = (effs, Next st')
         /\ (0 < dur ->
             speed_est st'
             == speed_est st * 0.7 + (dur / file_wall_of o) * 0.3)
         /\ (dur == 0 -> speed_est st' = speed_est st))
  /\ (0.001 <= file_end o - file_start o ->
      file_wall_of o == file_end o - file_start o)
  /\ update_speed (speed_est initial_state) 100 (file_wall_of obs_no_output)
     == 0.74.
Proof.
  intros Hc. split; [reflexivity |]. split; [| split].
  - rewrite (process_file_completes _ _ _ _ _ _ _ _ _ Hc).
    do 2 eexists. split; [reflexivity |]. cbn [speed_est].
    unfold update_speed. split; intros Hd.
    + destruct (Qlt_le_dec 0 dur); [| lra].
      setoid_replace 0.70 with 0.7 by reflexivity.
      setoid_replace 0.30 with 0.3 by reflexivity. reflexivity.
    + destruct (Qlt_le_dec 0 dur); [lra | reflexivity].
  - intros Hw. unfold file_wall_of. now apply pymax_of_le.
  - reflexivity.
Qed.

(** The same update in binary64 arithmetic, as Python computes it:
    rounding does not move the example away from 0.74. *)
#[warning="-inexact-float"]
Lemma ema_example_binary64 :
  (0.20 * 0.70 + (100 / 50) * 0.30 =? 0.74)%float = true.
Proof. reflexivity. Qed.

Lemma speed_estimate_update_witness :
  exists effs st',
    process_file sample_settings 1 100 0 1%nat initial_state
                 (wav "a") 100 obs_no_output
    = (effs, Next st')
    /\ speed_est st' == 0.74.
Proof.
  destruct (speed_estimate_update sample_settings 1 100 0 1%nat initial_state
              (wav "a") 100 obs_no_output eq_refl)
    as [_ [[effs [st' [E [Hpos _]]]] _]].
  exists effs, st'. split; [exact E |].
  rewrite Hpos; reflexivity.
Defined.

(** C9.  In a run whose probes succeed and whose files all run to their
    end, a file whose output text does not exist contributes the block
    with the fixed sentinel text; the run emits no error event, writes
    the merged file with every file's block in order and ends with the
    done event, for which the observer logs "All done.". *)
Theorem missing_output_gets_sentinel settings t0 files i f o :
  Forall (fun fo => probe_ok (snd fo) = true /\ completes (snd fo) = true)
         files ->
  nth_error files i = Some (f, o) ->
  out_txt o = None ->
  let r := _worker settings t0 files in
  let path := merged_path settings (map fst files) in
  let parts := map (fun fo => transcript_block (fst fo) (snd fo)) files in
  nth_error parts i
  = Some ("--- " +++ stem f +++ " ---" +++ LF +++ "[NO OUTPUT TXT FOUND]" +++ LF)
  /\ exists effs,
      effects r = effs ++ [ WriteText path (merged_text parts);
                            Put (EvLog ("Merged transcript: " +++ path));
                            Put EvDone ]
      /\ Forall benign effs
      /\ List.length (filter is_popen effs) = List.length files
      /\ cancel_set r = false
      /\ poll_ui_report (cancel_set r) EvDone = Some (LogLine "All done.").
Proof.
  intros Hall Hi Ho r path parts. split.
  - unfold parts. rewrite (map_nth_error _ _ _ Hi).
    unfold transcript_block. cbn [fst snd]. now rewrite Ho.
  - assert (Hp : probe_all files = inr (map probed files)).
    { apply probe_all_ok. eapply Forall_impl; [| exact Hall]. now intros fo []. }
    destruct (worker_effects settings t0 _ _ Hp)
      as [ta [effs [res [E [_ [He Hc]]]]]].
    destruct (run_files_completed settings (List.length files) ta t0
                (map probed files) 1%nat initial_state [])
      as [st' [Hs [Hm Hn]]].
    { rewrite Forall_map. eapply Forall_impl; [| exact Hall]. now intros fo []. }
    rewrite app_nil_r, E in Hs, Hn. cbn [fst snd run_files] in Hs, Hn.
    cbn [filter List.length] in Hn. rewrite length_map, Nat.add_0_r in Hn.
    cbn [merged_parts initial_state app] in Hm.
    rewrite map_map in Hm. unfold job_block, probed in Hm. cbn [fst snd] in Hm.
    subst res. rewrite Hm in He. exists effs.
    split; [exact He |]. split.
    + pose proof (run_files_benign settings (List.length files) ta t0
                    (map probed files) 1%nat initial_state) as Hb.
      now rewrite E in Hb.
    + split; [exact Hn |]. unfold r. rewrite Hc. split; reflexivity.
Qed.

Lemma missing_output_gets_sentinel_witness :
  exists effs,
    effects (_worker sample_settings 0 queue_no_output)
    = effs ++ [ WriteText "out/a_merged.txt"
                          ("--- a_1 ---" +++ LF +++ "hello" +++ LF +++ LF
                           +++ "--- a_2 ---" +++ LF
                           +++ "[NO OUTPUT TXT FOUND]" +++ LF);
                Put (EvLog "Merged transcript: out/a_merged.txt");
                Put EvDone ].
Proof.
  destruct (missing_output_gets_sentinel sample_settings 0 queue_no_output
              1%nat (wav "a_2") obs_no_output)
    as [_ [effs [He _]]].
  - repeat constructor.
  - reflexivity.
  - reflexivity.
  - exists effs. exact He.
Defined.



(** * Further properties of the run *)

Lemma probe_all_inr (files : list (Path * FileObs)) :
  forall jobs, probe_all files = inr jobs ->
               jobs = map probed files
               /\ Forall (fun fo => probe_ok (snd fo) = true) files.
Proof.
  induction files as [| [f o] files IH]; intros jobs H; cbn [probe_all] in H.
  - inversion H. split; [reflexivity | constructor].
  - destruct (probe_ok o) eqn:Eo.
    + rewrite (probe_ok_duration f o Eo) in H. cbn [bind] in H.
      destruct (probe_all files) as [e | ds]; [discriminate |].
      destruct (IH ds eq_refl) as [-> Hall]. cbn [bind ret] in H.
      inversion H. split; [reflexivity | now constructor].
    + destruct (probe_not_ok_raises f o Eo) as [e He]. rewrite He in H.
      discriminate.
Qed.

Lemma launched_cmds_app (xs ys : list Effect) :
  launched_cmds (xs ++ ys) = launched_cmds xs ++ launched_cmds ys.
Proof.
  induction xs as [| e xs IH]; [reflexivity |].
  destruct e as [ev | cmd piped | |]; cbn [launched_cmds app];
    now rewrite IH.
Qed.

Lemma total_values_app (xs ys : list Effect) :
  total_values (xs ++ ys) = total_values xs ++ total_values ys.
Proof.
  induction xs as [| e xs IH]; [reflexivity |].
  destruct e as [[] | | |]; cbn [total_values app]; now rewrite IH.
Qed.

Lemma poll_effects_quiet ta db i n a d (effs : list Effect) :
  Forall (poll_effect ta db i n a d) effs ->
  launched_cmds effs = []
  /\ Forall (fun e => in_loop e = true) effs
  /\ total_values effs = map (Qplus db) (done_values i effs).
Proof.
  induction 1 as [| e effs He _ [IH1 [IH2 IH3]]];
    [repeat split; constructor |].
  destruct He as [-> | [te [df [fe [-> _]]]]];
    cbn [launched_cmds total_values done_values map].
  - repeat split; auto.
  - rewrite Nat.eqb_refl. cbn [map]. rewrite IH3. repeat split; auto.
Qed.

(** The polling loop ends with [Terminate] exactly when it saw the
    cancel flag, and emits none before. *)
Lemma poll_loop_terminates_last settings ta ts db sp i n a d t0
      (ticks : list Tick) :
  forall buf lp ld,
  exists pre,
    fst (poll_loop settings ta ts db sp i n a d t0 buf lp ld ticks)
    = pre ++ (if existsb tick_cancel ticks then [Terminate] else [])
    /\ Forall (fun e => is_terminate e = false) pre.
Proof.
  induction ticks as [| t ticks IH]; intros buf lp ld.
  - exists []. split; [reflexivity | constructor].
  - rewrite poll_loop_step. cbn [existsb].
    destruct (tick_cancel t); [exists []; split; [reflexivity | constructor] |].
    cbn zeta. cbn [orb].
    destruct (Qlt_le_dec ld _); cbn [fst].
    + destruct (IH (fst (observe_output settings buf lp t))
                   (snd (observe_output settings buf lp t))
                   (done_file_of sp d (snd (observe_output settings buf lp t))
                                 (tick_now t - t0))) as [pre [E Hpre]].
      eexists (_ :: pre). rewrite E. split; [reflexivity |].
      constructor; [reflexivity | exact Hpre].
    + apply IH.
Qed.

Lemma files_split (files : list (Path * FileObs)) :
  exists done rest,
    files = done ++ rest
    /\ Forall (fun fo => completes (snd fo) = true) done
    /\ match rest with
       | [] => True
       | fo :: _ => completes (snd fo) = false
       end.
Proof.
  induction files as [| fo files [done [rest [E [Hd Hr]]]]].
  - exists [], []. repeat split. constructor.
  - destruct (completes (snd fo)) eqn:Ec.
    + exists (fo :: done), rest. subst files. repeat split; auto.
    + exists [], (fo :: files). repeat split; auto.
Qed.

Section RunShape.

Variable settings : JobSettings.
Variable nfiles : nat.
Variables total_audio total_start : Q.

Local Abbreviation run := (run_files settings nfiles total_audio total_start).
Local Abbreviation file_step :=
  (process_file settings nfiles total_audio total_start).

(** The files that run to their end are launched, merged and counted
    one after the other; the loop then goes on with what follows. *)
Lemma run_files_prefix (done : list (Path * Q * FileObs)) :
  forall idx st rest,
    Forall (fun j => completes (snd j) = true) done ->
    exists effs1 st',
      run idx st (done ++ rest)
      = (effs1 ++ fst (run (idx + List.length done)%nat st' rest),
         snd (run (idx + List.length done)%nat st' rest))
      /\ merged_parts st' = merged_parts st ++ map job_block done
      /\ total_done_audio st'
         = fold_left Qplus (map job_dur done) (total_done_audio st)
      /\ launched_cmds effs1 = map (job_launch settings) done
      /\ Forall in_loop_running effs1.
Proof.
  induction done as [| [[audio dur] o] done IH]; intros idx st rest Hall.
  - exists [], st. cbn [app List.length map fold_left launched_cmds].
    rewrite Nat.add_0_r, app_nil_r.
    split; [now destruct (run_files _ _ _ _ _ _ _) |].
    split; [reflexivity |]. split; [reflexivity |].
    split; [reflexivity | constructor].
  - inversion Hall as [| j l Hc Hrest]; subst. cbn [snd] in Hc.
    cbn [app]. rewrite run_files_cons,
      (process_file_completes _ _ _ _ _ _ _ _ _ Hc).
    destruct (IH (S idx)
                 (mkLoop (total_done_audio st + dur)
                         (update_speed (speed_est st) dur (file_wall_of o))
                         (merged_parts st ++ [transcript_block audio o]))
                 rest Hrest) as [effs1 [st' [E [Hm [Ht [Hl Hq]]]]]].
    rewrite E. cbn [fst snd List.length app]. rewrite Nat.add_succ_r.
    cbn [Nat.add] in *.
    match goal with
    | |- exists _ _, (?a :: ?b :: ?c ++ _, _) = _ /\ _ =>
        exists (a :: b :: c ++ effs1), st';
        split; [cbn [app]; now rewrite (app_assoc c effs1) |]
    end.
    pose proof (poll_loop_effects settings total_audio total_start
                  (total_done_audio st) (speed_est st) idx nfiles audio dur
                  (file_start o) (ticks o) EmptyString None 0 I) as Hpoll.
    destruct (poll_effects_quiet _ _ _ _ _ _ _ Hpoll) as [Hnl [Hin _]].
    destruct (poll_loop_terminates_last settings total_audio total_start
                (total_done_audio st) (speed_est st) idx nfiles audio dur
                (file_start o) (ticks o) EmptyString None 0)
      as [pre [Epre Hpre]].
    assert (Hnc : existsb tick_cancel (ticks o) = false).
    { unfold completes, cancelled_during in Hc.
      apply andb_prop in Hc as [_ Hc]. apply negb_true_iff in Hc.
      now apply orb_false_iff in Hc as [Hc _]. }
    rewrite Hnc, app_nil_r in Epre.
    split; [rewrite Hm; cbn [merged_parts map]; now rewrite <- app_assoc |].
    split; [exact Ht |]. split.
    + cbn [launched_cmds]. rewrite !launched_cmds_app, Hnl, Hl. reflexivity.
    + constructor; [now split |]. constructor; [now split |].
      apply Forall_app; split; [| exact Hq].
      apply Forall_app; split; [| repeat constructor].
      rewrite Forall_forall in Hin, Hpre. apply Forall_forall.
      intros e He. split; [now apply Hin |]. apply Hpre. now rewrite <- Epre.
Qed.

(** How the loop stops at a file that does not run to its end. *)
Lemma run_files_stops (idx : nat) (st : LoopState) (audio : Path) (dur : Q)
      (o : FileObs) (rest : list (Path * Q * FileObs)) :
  completes o = false ->
  (cancel_before o = true
   /\ run idx st ((audio, dur, o) :: rest)
      = ([], ret (merged_parts st, true)))
  \/ (exists msg,
         cancel_before o = false /\ popen_error o = Some msg
         /\ run idx st ((audio, dur, o) :: rest)
            = ([Put (EvFileStart idx nfiles (name audio) dur)],
               raise (OSError msg)))
  \/ (cancel_before o = false /\ popen_error o = None
      /\ cancelled_during o = true
      /\ exists polled,
          run idx st ((audio, dur, o) :: rest)
          = (Put (EvFileStart idx nfiles (name audio) dur)
               :: Popen (build_cmd settings audio) (real_progress settings)
               :: polled,
             ret (merged_parts st, true))
          /\ Forall (fun e => in_loop e = true) polled
          /\ launched_cmds polled = []
          /\ exists pre,
              polled = pre ++ (if existsb tick_cancel (ticks o)
                               then [Terminate] else [])
              /\ Forall (fun e => is_terminate e = false) pre).
Proof.
  intros Hc. rewrite run_files_cons.
  destruct (cancel_before o) eqn:Eb.
  - left. split; [reflexivity |]. unfold process_file. now rewrite Eb.
  - right. destruct (popen_error o) as [msg |] eqn:Ep.
    + left. exists msg. split; [reflexivity |]. split; [reflexivity |].
      unfold process_file. now rewrite Eb, Ep.
    + right. assert (Hd : cancelled_during o = true).
      { unfold completes in Hc. rewrite Eb, Ep in Hc. cbn [negb andb] in Hc.
        now apply negb_false_iff in Hc. }
      split; [reflexivity |]. split; [reflexivity |]. split; [exact Hd |].
      rewrite (process_file_cancelled _ _ _ _ _ _ _ _ _ Eb Ep Hd).
      eexists. split; [reflexivity |].
      pose proof (poll_loop_effects settings total_audio total_start
                    (total_done_audio st) (speed_est st) idx nfiles audio dur
                    (file_start o) (ticks o) EmptyString None 0 I) as Hpoll.
      destruct (poll_effects_quiet _ _ _ _ _ _ _ Hpoll) as [Hnl [Hin _]].
      split; [exact Hin |]. split; [exact Hnl |].
      apply poll_loop_terminates_last.
Qed.

End RunShape.

(** The whole run, for a queue whose probes succeed: the files that run
    to their end, followed by nothing or by a file at which the loop
    stops. *)
Lemma worker_shape settings t0 (done rest : list (Path * FileObs)) :
  Forall (fun fo => probe_ok (snd fo) = true) (done ++ rest) ->
  Forall (fun fo => completes (snd fo) = true) done ->
  match rest with
  | [] => True
  | fo :: _ => completes (snd fo) = false
  end ->
  let r := _worker settings t0 (done ++ rest) in
  let finished := closing settings (done ++ rest) (map file_block done) in
  exists body,
    Forall (fun e => in_loop e = true) body
    /\ ((rest = []
         /\ effects r = body ++ finished /\ cancel_set r = false
         /\ launched_cmds body = map (file_launch settings) done
         /\ Forall (fun e => is_terminate e = false) body)
        \/ (exists f o rest',
               rest = (f, o) :: rest' /\ cancel_before o = true
               /\ effects r = body ++ finished /\ cancel_set r = true
               /\ launched_cmds body = map (file_launch settings) done
               /\ Forall (fun e => is_terminate e = false) body)
        \/ (exists f o rest' msg,
               rest = (f, o) :: rest' /\ launch_fails o msg
               /\ effects r = body ++ [Put (EvError (OSError msg))]
               /\ cancel_set r = false
               /\ launched_cmds body = map (file_launch settings) done
               /\ Forall (fun e => is_terminate e = false) body)
        \/ (exists f o rest',
               rest = (f, o) :: rest'
               /\ cancel_before o = false /\ popen_error o = None
               /\ cancelled_during o = true
               /\ effects r = body ++ finished /\ cancel_set r = true
               /\ launched_cmds body
                  = map (file_launch settings) (done ++ [(f, o)])
               /\ exists pre,
                   body = pre ++ (if existsb tick_cancel (ticks o)
                                  then [Terminate] else [])
                   /\ Forall (fun e => is_terminate e = false) pre)).
Proof.
  intros Hok Hdone Hrest r finished.
  pose proof (probe_all_ok _ Hok) as Hp.
  destruct (worker_effects settings t0 _ _ Hp)
    as [ta [effs [res [E [_ [He Hc]]]]]].
  rewrite map_app in E.
  destruct (run_files_prefix settings (List.length (done ++ rest)) ta t0
              (map probed done) 1%nat initial_state (map probed rest))
    as [effs1 [st' [E1 [Hm [_ [Hl Hq]]]]]].
  { rewrite Forall_map. exact Hdone. }
  rewrite E in E1. rewrite length_map in E1.
  cbn [merged_parts initial_state app] in Hm.
  rewrite map_map in Hm, Hl.
  change (map (fun x => job_block (probed x)) done)
    with (map file_block done) in Hm.
  change (map (fun x => job_launch settings (probed x)) done)
    with (map (file_launch settings) done) in Hl.
  assert (Hin1 : Forall (fun e => in_loop e = true) effs1)
    by (eapply Forall_impl; [| exact Hq]; now intros e []).
  assert (Hnt1 : Forall (fun e => is_terminate e = false) effs1)
    by (eapply Forall_impl; [| exact Hq]; now intros e []).
  unfold r, finished, closing.
  destruct rest as [| [f o] rest'].
  - cbn [map run_files fst snd] in E1. rewrite app_nil_r in E1.
    inversion E1; subst effs res. rewrite Hm in He, Hc.
    exists effs1. split; [exact Hin1 |]. left. repeat split; assumption.
  - cbn [snd] in Hrest. cbn [map] in E1.
    change (probed (f, o)) with (f, duration_of o, o) in E1.
    destruct (run_files_stops settings (List.length (done ++ (f, o) :: rest'))
                ta t0 (1 + List.length done)%nat st' f (duration_of o) o
                (map probed rest') Hrest)
      as [[Hb Es] | [[msg [Hb [Hpe Es]]] | [Hb [Hpe [Hd [polled [Es [Hin [Hnl Hpre]]]]]]]]];
      rewrite Es in E1; cbn [fst snd] in E1; inversion E1; subst effs res.
    + rewrite Hm in He, Hc. rewrite app_nil_r in *.
      exists effs1. split; [exact Hin1 |]. right; left.
      exists f, o, rest'. repeat split; assumption.
    + exists (effs1 ++ [Put (EvFileStart (1 + List.length done)
                            (List.length (done ++ (f, o) :: rest'))
                            (name f) (duration_of o))]).
      split; [apply Forall_app; split; [exact Hin1 | now repeat constructor] |].
      right; right; left. exists f, o, rest', msg.
      split; [reflexivity |]. split; [now split |].
      split; [exact He |]. split; [exact Hc |]. split.
      * rewrite launched_cmds_app, Hl. cbn [launched_cmds]. apply app_nil_r.
      * apply Forall_app; split; [exact Hnt1 | now repeat constructor].
    + rewrite Hm in He, Hc.
      exists (effs1 ++ Put (EvFileStart (1 + List.length done)
                              (List.length (done ++ (f, o) :: rest'))
                              (name f) (duration_of o))
                :: Popen (build_cmd settings f) (real_progress settings)
                :: polled).
      split; [apply Forall_app; split; [exact Hin1 |];
              constructor; [reflexivity |]; constructor; [reflexivity |];
              exact Hin |].
      right; right; right. exists f, o, rest'.
      split; [reflexivity |]. split; [exact Hb |]. split; [exact Hpe |].
      split; [exact Hd |]. split; [exact He |]. split; [exact Hc |]. split.
      * rewrite launched_cmds_app, Hl, map_app. cbn [launched_cmds map].
        now rewrite Hnl.
      * destruct Hpre as [pre [-> Hpre]].
        eexists (effs1 ++ _ :: _ :: pre).
        split; [now rewrite <- app_assoc |].
        apply Forall_app; split; [exact Hnt1 |].
        constructor; [reflexivity |]. constructor; [reflexivity | exact Hpre].
Qed.

Lemma in_loop_no_write (body : list Effect) :
  Forall (fun e => in_loop e = true) body ->
  filter is_write body = [] /\ filter is_error body = [].
Proof.
  induction 1 as [| e body He _ [IH1 IH2]]; [now split |].
  destruct e as [[] | | |]; try discriminate; cbn [filter is_write is_error];
    now split.
Qed.

Lemma cancelled_at_stops (o : FileObs) : cancelled_at o -> completes o = false.
Proof.
  unfold completes. intros [-> | [-> [-> ->]]]; reflexivity.
Qed.

Lemma launch_fails_stops (o : FileObs) (msg : string) :
  launch_fails o msg -> completes o = false.
Proof. unfold completes. now intros [-> ->]. Qed.

(** X1.  Every run ends in one of two ways: with a single error event,
    or with the write of the merged file followed by the log line and
    the done event.  Everything before is traffic of the loop over the
    files: no error event, no log line, no write and no done event. *)
Theorem run_ends_with_one_terminal settings t0 files :
  exists body,
    Forall (fun e => in_loop e = true) body
    /\ ((exists e,
            effects (_worker settings t0 files) = body ++ [Put (EvError e)])
        \/ (exists parts,
               effects (_worker settings t0 files)
               = body ++ closing settings files parts)).
Proof.
  destruct (probe_all files) as [e | jobs] eqn:Hp.
  - exists []. split; [constructor |]. left. exists e.
    unfold _worker. now rewrite Hp.
  - destruct (probe_all_inr _ _ Hp) as [_ Hok].
    destruct (files_split files) as [done [rest [-> [Hd Hr]]]].
    destruct (worker_shape settings t0 done rest Hok Hd Hr)
      as [body [Hin Hcases]].
    exists body. split; [exact Hin |].
    destruct Hcases as [[_ [He _]] | [H | [H | H]]].
    + right. eexists. exact He.
    + destruct H as [f [o [rest' [_ [_ [He _]]]]]]. right. eexists. exact He.
    + destruct H as [f [o [rest' [msg [_ [_ [He _]]]]]]].
      left. eexists. exact He.
    + destruct H as [f [o [rest' [_ [_ [_ [_ [He _]]]]]]]].
      right. eexists. exact He.
Qed.

(** X2.  When the cancel flag is seen at a file, before it starts or
    while its process is polled, and the files before it ran to their
    end, the merged file is still written and holds exactly the blocks
    of those earlier files, in queue order; the run ends with the done
    event and the flag set.  Seen at the first file, the merged file is
    a single line feed. *)
Theorem cancel_keeps_finished_files settings t0 done f o rest :
  Forall (fun fo => probe_ok (snd fo) = true) (done ++ (f, o) :: rest) ->
  Forall (fun fo => completes (snd fo) = true) done ->
  cancelled_at o ->
  let r := _worker settings t0 (done ++ (f, o) :: rest) in
  (exists body,
      effects r
      = body ++ closing settings (done ++ (f, o) :: rest) (map file_block done)
      /\ Forall (fun e => in_loop e = true) body)
  /\ cancel_set r = true
  /\ merged_text (map file_block []) = LF.
Proof.
  intros Hok Hd Hc r.
  destruct (worker_shape settings t0 done ((f, o) :: rest) Hok Hd
                         (cancelled_at_stops o Hc))
    as [body [Hin Hcases]].
  destruct Hcases as [[E _] | [H | [H | H]]].
  - discriminate.
  - destruct H as [f' [o' [rest' [_ [_ [He [Hcs _]]]]]]].
    split; [exists body; now split |]. now split.
  - destruct H as [f' [o' [rest' [msg [E [[Hb Hp] _]]]]]].
    inversion E; subst f' o' rest'.
    destruct Hc as [Hc | [_ [Hc _]]]; congruence.
  - destruct H as [f' [o' [rest' [_ [_ [_ [_ [He [Hcs _]]]]]]]]].
    split; [exists body; now split |]. now split.
Qed.

Lemma cancel_keeps_finished_files_witness :
  exists body,
    effects (_worker sample_settings 0 queue_cancelled)
    = body ++ [ WriteText "out/a_merged.txt"
                          ("--- a_1 ---" +++ LF +++ "hello" +++ LF);
                Put (EvLog "Merged transcript: out/a_merged.txt");
                Put EvDone ].
Proof.
  destruct (cancel_keeps_finished_files sample_settings 0
              [(wav "a_1", obs_done)] (wav "a_2") obs_cancelled
              [(wav "a_3", obs_fresh)])
    as [[body [He _]] _].
  - repeat constructor.
  - repeat constructor.
  - right. repeat split.
  - exists body. exact He.
Defined.

(** X3.  When the process of a file cannot be launched, the run ends
    with the error event right after that file's start event: no merged
    file is written, so the transcripts of the files that already ran
    to their end are not merged, and no later file is launched. *)
Theorem launch_failure_discards_transcripts settings t0 done f o rest msg :
  Forall (fun fo => probe_ok (snd fo) = true) (done ++ (f, o) :: rest) ->
  Forall (fun fo => completes (snd fo) = true) done ->
  launch_fails o msg ->
  let r := _worker settings t0 (done ++ (f, o) :: rest) in
  (exists body,
      effects r
      = body ++ [Put (EvFileStart (S (List.length done))
                                  (List.length (done ++ (f, o) :: rest))
                                  (name f) (duration_of o));
                 Put (EvError (OSError msg))]
      /\ launched_cmds body = map (file_launch settings) done)
  /\ filter is_write (effects r) = []
  /\ launched_cmds (effects r) = map (file_launch settings) done.
Proof.
  intros Hok Hd Hf r.
  pose proof (probe_all_ok _ Hok) as Hp.
  destruct (worker_effects settings t0 _ _ Hp)
    as [ta [effs [res [E [_ [He _]]]]]].
  rewrite map_app in E. cbn [map] in E.
  change (probed (f, o)) with (f, duration_of o, o) in E.
  destruct (run_files_prefix settings (List.length (done ++ (f, o) :: rest))
              ta t0 (map probed done) 1%nat initial_state
              ((f, duration_of o, o) :: map probed rest))
    as [effs1 [st' [E1 [_ [_ [Hl Hq]]]]]].
  { rewrite Forall_map. exact Hd. }
  rewrite E, length_map in E1.
  destruct (run_files_stops settings (List.length (done ++ (f, o) :: rest))
              ta t0 (1 + List.length done)%nat st' f (duration_of o) o
              (map probed rest) (launch_fails_stops o msg Hf))
    as [[Hb _] | [[msg' [_ [Hpe Es]]] | [_ [Hpe _]]]];
    destruct Hf as [Hb' Hp']; try congruence.
  rewrite Es in E1. cbn [fst snd] in E1. inversion E1; subst effs res.
  assert (msg' = msg) by congruence. subst msg'.
  rewrite map_map in Hl.
  change (map (fun x => job_launch settings (probed x)) done)
    with (map (file_launch settings) done) in Hl.
  assert (Hin : Forall (fun e => in_loop e = true) effs1)
    by (eapply Forall_impl; [| exact Hq]; now intros e []).
  unfold r. rewrite He, <- app_assoc. cbn [app]. split; [| split].
  - exists effs1. now split.
  - rewrite filter_app. cbn [filter is_write].
    now rewrite (proj1 (in_loop_no_write _ Hin)).
  - rewrite launched_cmds_app. cbn [launched_cmds]. now rewrite app_nil_r.
Qed.

Lemma launch_failure_discards_transcripts_witness :
  filter is_write (effects (_worker sample_settings 0 queue_launch_fails)) = []
  /\ List.length (launched_cmds
                    (effects (_worker sample_settings 0 queue_launch_fails)))
     = 1%nat.
Proof.
  destruct (launch_failure_discards_transcripts sample_settings 0
              [(wav "a_1", obs_done)] (wav "a_2") obs_no_launch
              [(wav "a_3", obs_fresh)] "whisper-cli: not found")
    as [_ [Hw Hl]].
  - repeat constructor.
  - repeat constructor.
  - split; reflexivity.
  - split; [exact Hw |]. unfold queue_launch_fails.
    cbn [app] in Hl. now rewrite Hl.
Defined.

Lemma closing_launches_nothing settings files parts :
  launched_cmds (closing settings files parts) = []
  /\ Forall (fun e => is_terminate e = false) (closing settings files parts).
Proof. split; [reflexivity | repeat constructor]. Qed.

Lemma build_cmd_last settings audio :
  exists pre,
    build_cmd settings audio
    = pre ++ [if real_progress settings then "-pp" else "-np"].
Proof.
  unfold build_cmd. eexists. rewrite !app_assoc.
  now destruct (real_progress settings).
Qed.

(** X4.  The processes a run launches are those of the first files of
    the queue, one per file, in queue order and none skipped; each is
    launched with the child's output piped exactly when real-progress
    mode is on, and its command ends with -pp in that case and with -np
    otherwise. *)
Theorem files_launched_in_queue_order settings t0 files :
  (exists n,
      launched_cmds (effects (_worker settings t0 files))
      = map (file_launch settings) (firstn n files))
  /\ Forall (fun cp =>
               snd cp = real_progress settings
               /\ exists pre,
                   fst cp = pre ++ [if snd cp then "-pp" else "-np"])
            (launched_cmds (effects (_worker settings t0 files))).
Proof.
  assert (H : exists n,
             launched_cmds (effects (_worker settings t0 files))
             = map (file_launch settings) (firstn n files)).
  { destruct (probe_all files) as [e | jobs] eqn:Hp.
    - exists 0%nat. unfold _worker. now rewrite Hp.
    - destruct (probe_all_inr _ _ Hp) as [_ Hok].
      destruct (files_split files) as [done [rest [-> [Hd Hr]]]].
      destruct (worker_shape settings t0 done rest Hok Hd Hr)
        as [body [Hin Hcases]].
      destruct Hcases as [[_ [He [_ [Hl _]]]] | [Hc | [Hc | Hc]]].
      + exists (List.length done). rewrite He, launched_cmds_app, Hl.
        cbn [closing launched_cmds]. rewrite app_nil_r.
        now rewrite firstn_app, Nat.sub_diag, firstn_all, firstn_O, app_nil_r.
      + destruct Hc as [f [o [rest' [_ [_ [He [_ [Hl _]]]]]]]].
        exists (List.length done). rewrite He, launched_cmds_app, Hl.
        cbn [closing launched_cmds]. rewrite app_nil_r.
        now rewrite firstn_app, Nat.sub_diag, firstn_all, firstn_O, app_nil_r.
      + destruct Hc as [f [o [rest' [msg [_ [_ [He [_ [Hl _]]]]]]]]].
        exists (List.length done). rewrite He, launched_cmds_app, Hl.
        cbn [launched_cmds]. rewrite app_nil_r.
        now rewrite firstn_app, Nat.sub_diag, firstn_all, firstn_O, app_nil_r.
      + destruct Hc as [f [o [rest' [-> [_ [_ [_ [He [_ [Hl _]]]]]]]]]].
        exists (S (List.length done)). rewrite He, launched_cmds_app, Hl.
        cbn [closing launched_cmds]. rewrite app_nil_r.
        rewrite firstn_app, firstn_all2 by lia.
        replace (S (List.length done) - List.length done)%nat with 1%nat
          by lia.
        reflexivity. }
  split; [exact H |]. destruct H as [n ->].
  apply Forall_map, Forall_forall. intros fo _. cbn [file_launch fst snd].
  split; [reflexivity | apply build_cmd_last].
Qed.

(** X5.  The child is terminated only on cancellation, and at most once:
    if a run terminates a child, nothing of the loop follows; the
    merged file is written next, then the log line and the done event,
    and the cancel flag is set. *)
Theorem terminate_is_followed_by_closing settings t0 files :
  In Terminate (effects (_worker settings t0 files)) ->
  exists pre parts,
    effects (_worker settings t0 files)
    = pre ++ Terminate :: closing settings files parts
    /\ Forall (fun e => is_terminate e = false) pre
    /\ cancel_set (_worker settings t0 files) = true.
Proof.
  intros Hin.
  assert (Hno : forall body tail,
             effects (_worker settings t0 files) = body ++ tail ->
             Forall (fun e => is_terminate e = false) body ->
             Forall (fun e => is_terminate e = false) tail -> False).
  { intros body tail E Hb Ht. rewrite E in Hin.
    assert (Hall : Forall (fun e => is_terminate e = false) (body ++ tail))
      by (apply Forall_app; now split).
    rewrite Forall_forall in Hall. now apply Hall in Hin. }
  destruct (probe_all files) as [e | jobs] eqn:Hp.
  - exfalso. apply (Hno [] (effects (_worker settings t0 files)) eq_refl);
      [constructor |].
    unfold _worker. rewrite Hp. repeat constructor.
  - destruct (probe_all_inr _ _ Hp) as [_ Hok].
    destruct (files_split files) as [done [rest [-> [Hd Hr]]]].
    destruct (worker_shape settings t0 done rest Hok Hd Hr)
      as [body [_ Hcases]].
    destruct Hcases as [[_ [He [_ [_ Hnt]]]] | [Hc | [Hc | Hc]]].
    + exfalso. apply (Hno _ _ He Hnt). apply closing_launches_nothing.
    + destruct Hc as [f [o [rest' [_ [_ [He [_ [_ Hnt]]]]]]]].
      exfalso. apply (Hno _ _ He Hnt). apply closing_launches_nothing.
    + destruct Hc as [f [o [rest' [msg [_ [_ [He [_ [_ Hnt]]]]]]]]].
      exfalso. apply (Hno _ _ He Hnt). repeat constructor.
    + destruct Hc as [f [o [rest' [_ [_ [_ [_ [He [Hcs [_ [pre [Eb Hpre]]]]]]]]]]]].
      destruct (existsb tick_cancel (ticks o)).
      * exists pre. eexists. subst body. rewrite <- app_assoc in He.
        split; [exact He |]. now split.
      * exfalso. rewrite app_nil_r in Eb. subst body.
        apply (Hno _ _ He Hpre). apply closing_launches_nothing.
Qed.

Lemma terminate_is_followed_by_closing_witness :
  cancel_set (_worker sample_settings 0 [(wav "a", obs_cancelled)]) = true.
Proof.
  destruct (terminate_is_followed_by_closing sample_settings 0
              [(wav "a", obs_cancelled)])
    as [pre [parts [_ [_ Hc]]]]; [| exact Hc].
  vm_compute. repeat (try (left; reflexivity); right).
Defined.

(** ** Estimated mode *)

Lemma poll_loop_mute settings ta ts db sp i n a d t0 (ticks : list Tick) :
  real_progress settings = false ->
  forall buf lp ld,
    poll_loop settings ta ts db sp i n a d t0 buf lp ld (map mute_tick ticks)
    = poll_loop settings ta ts db sp i n a d t0 buf lp ld ticks.
Proof.
  intros Hr. induction ticks as [| t ticks IH]; intros buf lp ld;
    [reflexivity |].
  cbn [map]. rewrite !poll_loop_step.
  change (tick_cancel (mute_tick t)) with (tick_cancel t).
  change (tick_now (mute_tick t)) with (tick_now t).
  assert (Ho : observe_output settings buf lp (mute_tick t)
               = observe_output settings buf lp t)
    by (unfold observe_output; now rewrite Hr).
  rewrite Ho. destruct (tick_cancel t); [reflexivity |]. cbn zeta.
  now rewrite !IH.
Qed.

Lemma process_file_mute settings nfiles ta ts idx st audio dur o :
  real_progress settings = false ->
  process_file settings nfiles ta ts idx st audio dur (mute o)
  = process_file settings nfiles ta ts idx st audio dur o.
Proof.
  intros Hr. unfold process_file.
  change (cancel_before (mute o)) with (cancel_before o).
  change (popen_error (mute o)) with (popen_error o).
  change (file_start (mute o)) with (file_start o).
  change (cancel_after (mute o)) with (cancel_after o).
  change (ticks (mute o)) with (map mute_tick (ticks o)).
  change (file_wall_of (mute o)) with (file_wall_of o).
  change (transcript_block audio (mute o)) with (transcript_block audio o).
  now rewrite (poll_loop_mute _ _ _ _ _ _ _ _ _ _ _ Hr).
Qed.

Lemma run_files_mute settings nfiles ta ts (jobs : list (Path * Q * FileObs)) :
  real_progress settings = false ->
  forall idx st,
    run_files settings nfiles ta ts idx st (map mute_job jobs)
    = run_files settings nfiles ta ts idx st jobs.
Proof.
  intros Hr. induction jobs as [| [[f d] o] jobs IH]; intros idx st;
    [reflexivity |].
  cbn [map]. change (mute_job (f, d, o)) with (f, d, mute o).
  rewrite !run_files_cons, (process_file_mute _ _ _ _ _ _ _ _ _ Hr).
  destruct (process_file _ _ _ _ _ _ _ _ _) as [effs [st' | | e]];
    try reflexivity.
  now rewrite IH.
Qed.

Lemma probe_all_mute (files : list (Path * FileObs)) :
  probe_all (map mute_file files)
  = match probe_all files with
    | inl e => inl e
    | inr jobs => inr (map mute_job jobs)
    end.
Proof.
  induction files as [| [f o] files IH]; [reflexivity |].
  cbn [map probe_all]. change (mute_file (f, o)) with (f, mute o).
  cbn [probe_all]. change (probe (mute o)) with (probe o).
  destruct (get_duration_seconds f (probe o)) as [e | d]; [reflexivity |].
  cbn [bind]. rewrite IH.
  now destruct (probe_all files) as [e | jobs].
Qed.

(** X6.  In estimated-progress mode nothing the child prints plays any
    part: a run in which the child's output is replaced by silence has
    the same effects and leaves the same cancel flag. *)
Theorem estimated_mode_ignores_output settings t0 files :
  real_progress settings = false ->
  _worker settings t0 (map mute_file files) = _worker settings t0 files.
Proof.
  intros Hr. unfold _worker. rewrite probe_all_mute.
  destruct (probe_all files) as [e | jobs]; [reflexivity |].
  rewrite (run_files_mute _ _ _ _ _ Hr), !map_map, length_map.
  cbn [mute_file fst].
  assert (Hs : sum_durations (map mute_job jobs) = sum_durations jobs).
  { unfold sum_durations. now rewrite map_map. }
  now rewrite Hs.
Qed.

Lemma estimated_mode_ignores_output_witness :
  _worker estimated_settings 0 (map mute_file queue_cancelled)
  = _worker estimated_settings 0 queue_cancelled.
Proof.
  apply (estimated_mode_ignores_output estimated_settings 0 queue_cancelled).
  reflexivity.
Defined.

(** ** What progress events carry *)

Lemma done_values_in (effs : list Effect) ta td te d df fe i n nm :
  In (Put (EvProgress ta td te d df fe i n nm)) effs ->
  In df (done_values i effs).
Proof.
  induction effs as [| e effs IH]; [intros [] |].
  intros [-> | H].
  - cbn [done_values]. rewrite Nat.eqb_refl. now left.
  - specialize (IH H). destruct e as [[] | | |]; cbn [done_values]; auto.
    destruct (Nat.eqb idx i); [now right | exact IH].
Qed.

Lemma sorted_above_head (a : Q) (l : list Q) (x : Q) :
  StronglySorted Qlt (a :: l) -> In x l -> a < x.
Proof.
  intros H Hin. apply StronglySorted_inv in H as [_ H].
  rewrite Forall_forall in H. now apply H.
Qed.

Lemma sorted_map_plus (c : Q) (l : list Q) :
  StronglySorted Qlt l -> StronglySorted Qlt (map (Qplus c) l).
Proof.
  induction 1 as [| a l _ IH Hall]; cbn [map]; constructor; [exact IH |].
  apply Forall_map. eapply Forall_impl; [| exact Hall].
  intros b Hb. cbn beta. lra.
Qed.

Lemma sorted_app_between (m : Q) (l1 l2 : list Q) :
  StronglySorted Qlt l1 -> StronglySorted Qlt l2 ->
  Forall (fun x => x <= m) l1 -> Forall (fun y => m < y) l2 ->
  StronglySorted Qlt (l1 ++ l2).
Proof.
  intros H1 H2 Hle Hlt. induction H1 as [| a l1 _ IH Hall]; [exact H2 |].
  inversion Hle as [| a' l' Ha Hl]; subst. cbn [app].
  constructor; [now apply IH |].
  apply Forall_app; split; [exact Hall |].
  eapply Forall_impl; [| exact Hlt]. intros y Hy. cbn beta in Hy. lra.
Qed.

Section ProgressFacts.

Variable settings : JobSettings.
Variable nfiles : nat.
Variables total_audio total_start : Q.

Local Abbreviation run := (run_files settings nfiles total_audio total_start).
Local Abbreviation file_step :=
  (process_file settings nfiles total_audio total_start).

(** A progress event of one file's iteration is an event of its
    polling loop. *)
Lemma process_file_progress_polled idx st audio dur o
      ta td te d df fe i n nm :
  In (Put (EvProgress ta td te d df fe i n nm))
     (fst (file_step idx st audio dur o)) ->
  In (Put (EvProgress ta td te d df fe i n nm))
     (fst (poll_loop settings total_audio total_start
                     (total_done_audio st) (speed_est st)
                     idx nfiles audio dur (file_start o)
                     EmptyString None 0 (ticks o))).
Proof.
  intros Hin.
  destruct (process_file_shape settings nfiles total_audio total_start
              idx st audio dur o) as [E | [E | [E | E]]]; rewrite E in Hin.
  - destruct Hin.
  - destruct Hin as [H | []]; discriminate.
  - destruct Hin as [H | [H | H]]; try discriminate; exact H.
  - destruct Hin as [H | [H | H]]; try discriminate.
    apply in_app_or in H as [H | [H | []]]; [exact H | discriminate].
Qed.

Lemma process_file_progress_fields idx st audio dur o
      ta td te d df fe i n nm :
  In (Put (EvProgress ta td te d df fe i n nm))
     (fst (file_step idx st audio dur o)) ->
  i = idx /\ n = nfiles /\ nm = name audio /\ d = dur
  /\ 0 < df /\ df <= dur /\ td = total_done_audio st + df.
Proof.
  intros Hin. apply process_file_progress_polled in Hin.
  pose proof (poll_loop_effects settings total_audio total_start
                (total_done_audio st) (speed_est st) idx nfiles audio dur
                (file_start o) (ticks o) EmptyString None 0 I) as Hall.
  pose proof (poll_loop_increasing settings total_audio total_start
                (total_done_audio st) (speed_est st) idx nfiles audio dur
                (file_start o) (ticks o) EmptyString None 0) as Hinc.
  rewrite Forall_forall in Hall.
  destruct (Hall _ Hin) as [H | [te' [df' [fe' [H Hle]]]]]; [discriminate |].
  inversion H; subst.
  apply done_values_in in Hin.
  pose proof (sorted_above_head _ _ _ Hinc Hin).
  repeat split; assumption.
Qed.

(** Every progress event of the loop belongs to the file at its index,
    carries that file's name and duration, and an estimate within it. *)
Lemma run_files_progress_fields (jobs : list (Path * Q * FileObs)) :
  forall idx st ta td te d df fe i n nm,
    Forall (fun x => 0 <= x) (map job_dur jobs) ->
    0 <= total_done_audio st ->
    In (Put (EvProgress ta td te d df fe i n nm)) (fst (run idx st jobs)) ->
    (idx <= i)%nat /\ n = nfiles
    /\ (exists audio o,
           nth_error jobs (i - idx) = Some (audio, d, o) /\ nm = name audio)
    /\ 0 < df /\ df <= d /\ df <= td.
Proof.
  induction jobs as [| [[audio dur] o] rest IH];
    intros idx st ta td te d df fe i n nm Hpos Hst Hin; [destruct Hin |].
  cbn [map] in Hpos. inversion Hpos as [| x l Hdur Hrest]; subst.
  change (job_dur (audio, dur, o)) with dur in Hdur.
  rewrite run_files_cons in Hin.
  pose proof (process_file_progress_fields idx st audio dur o
                ta td te d df fe i n nm) as Hone.
  destruct (process_file _ _ _ _ _ _ _ _ _) as [effs out] eqn:E.
  cbn [fst] in Hone.
  assert (Hhere : In (Put (EvProgress ta td te d df fe i n nm)) effs ->
                  (idx <= i)%nat /\ n = nfiles
                  /\ (exists audio0 o0,
                         nth_error ((audio, dur, o) :: rest) (i - idx)
                         = Some (audio0, d, o0) /\ nm = name audio0)
                  /\ 0 < df /\ df <= d /\ df <= td).
  { intros H. destruct (Hone H) as [-> [-> [-> [-> [H0 [H1 ->]]]]]].
    split; [lia |]. split; [reflexivity |]. split.
    - exists audio, o. rewrite Nat.sub_diag. now split.
    - repeat split; try assumption. lra. }
  destruct out as [st' | | e]; cbn [fst] in Hin; auto.
  apply in_app_or in Hin as [Hin | Hin]; [auto |].
  assert (Hst' : total_done_audio st' = total_done_audio st + dur).
  { unfold process_file in E. destruct (cancel_before o); [discriminate |].
    destruct (popen_error o); [discriminate |].
    destruct (poll_loop _ _ _ _ _ _ _ _ _ _ _ _ _ _) as [pe c].
    destruct (c || cancel_after o); inversion E; reflexivity. }
  destruct (IH (S idx) st' ta td te d df fe i n nm Hrest) as
    [Hi [Hn [[a0 [o0 [Hnth Hnm]]] Hb]]]; [rewrite Hst'; lra | exact Hin |].
  split; [lia |]. split; [exact Hn |]. split; [| exact Hb].
  exists a0, o0. split; [| exact Hnm].
  replace (i - idx)%nat with (S (i - S idx)) by lia. exact Hnth.
Qed.

(** The total estimates of the loop rise strictly, starting above what
    is already done. *)
Lemma run_files_total_increasing (jobs : list (Path * Q * FileObs)) :
  forall idx st,
    Forall (fun x => 0 <= x) (map job_dur jobs) ->
    StronglySorted Qlt (total_values (fst (run idx st jobs)))
    /\ Forall (fun y => total_done_audio st < y)
              (total_values (fst (run idx st jobs))).
Proof.
  induction jobs as [| [[audio dur] o] rest IH]; intros idx st Hpos.
  - split; constructor.
  - cbn [map] in Hpos. inversion Hpos as [| x l Hdur Hrest]; subst.
    change (job_dur (audio, dur, o)) with dur in Hdur.
    rewrite run_files_cons.
    pose proof (process_file_progress_fields idx st audio dur o) as Hone.
    pose proof (process_file_increasing settings nfiles total_audio
                  total_start idx st audio dur o) as Hinc.
    pose proof (process_file_shape settings nfiles total_audio total_start
                  idx st audio dur o) as Hshape.
    pose proof (poll_loop_effects settings total_audio total_start
                  (total_done_audio st) (speed_est st) idx nfiles audio dur
                  (file_start o) (ticks o) EmptyString None 0 I) as Hall.
    destruct (poll_effects_quiet _ _ _ _ _ _ _ Hall) as [_ [_ Htv]].
    pose proof (poll_loop_increasing settings total_audio total_start
                  (total_done_audio st) (speed_est st) idx nfiles audio dur
                  (file_start o) (ticks o) EmptyString None 0) as Hpinc.
    destruct (process_file _ _ _ _ _ _ _ _ _) as [effs out] eqn:E.
    cbn [fst] in *.
    assert (Hsorted : StronglySorted Qlt (total_values effs)).
    { destruct Hshape as [-> | [-> | [-> | ->]]]; cbn [total_values];
        try constructor.
      - rewrite Htv. apply sorted_map_plus.
        now apply StronglySorted_inv in Hpinc.
      - rewrite total_values_app, Htv. cbn [total_values].
        rewrite app_nil_r. apply sorted_map_plus.
        now apply StronglySorted_inv in Hpinc. }
    assert (Hbounds : Forall (fun y => total_done_audio st < y
                                       /\ y <= total_done_audio st + dur)
                             (total_values effs)).
    { apply Forall_forall. intros y Hy.
      assert (Hex : exists ta te d df fe i n nm,
                 In (Put (EvProgress ta y te d df fe i n nm)) effs).
      { clear - Hy. induction effs as [| e effs IH]; [destruct Hy |].
        destruct e as [[] | | |]; cbn [total_values] in Hy;
          try (destruct (IH Hy) as [ta [te [d [df [fe [i [n [nm H]]]]]]]];
               exists ta, te, d, df, fe, i, n, nm; now right).
        destruct Hy as [<- | Hy].
        - do 8 eexists. now left.
        - destruct (IH Hy) as [ta [te [d [df [fe [i [n [nm H]]]]]]]].
          exists ta, te, d, df, fe, i, n, nm. now right. }
      destruct Hex as [ta [te [d [df [fe [i [n [nm Hin]]]]]]]].
      destruct (Hone _ _ _ _ _ _ _ _ _ Hin)
        as [_ [_ [_ [_ [H0 [H1 ->]]]]]]. lra. }
    assert (Hlow : Forall (fun y => total_done_audio st < y)
                          (total_values effs))
      by (eapply Forall_impl; [| exact Hbounds]; now intros y []).
    destruct out as [st' | | e]; cbn [fst]; try (split; assumption).
    assert (Hst' : total_done_audio st' = total_done_audio st + dur).
    { unfold process_file in E. destruct (cancel_before o); [discriminate |].
      destruct (popen_error o); [discriminate |].
      destruct (poll_loop _ _ _ _ _ _ _ _ _ _ _ _ _ _) as [pe c].
      destruct (c || cancel_after o); inversion E; reflexivity. }
    destruct (IH (S idx) st' Hrest) as [IHs IHl]. rewrite Hst' in IHl.
    rewrite total_values_app. split.
    + apply (sorted_app_between (total_done_audio st + dur));
        try assumption.
      eapply Forall_impl; [| exact Hbounds]. now intros y [].
    + apply Forall_app; split; [exact Hlow |].
      eapply Forall_impl; [| exact IHl]. intros y Hy. cbn beta in Hy. lra.
Qed.

End ProgressFacts.

(** X7.  Every progress event of a run belongs to a queued file: its
    index is the file's position in the queue counted from 1, its total
    is the queue's length, and it carries that file's name and probed
    duration.  Its completed-seconds value is positive, at most the
    file's duration, and at most the total estimate it carries. *)
Theorem progress_events_describe_their_file settings t0 files :
  forall ta td te d df fe i n nm,
    In (Put (EvProgress ta td te d df fe i n nm))
       (effects (_worker settings t0 files)) ->
    (1 <= i)%nat /\ n = List.length files
    /\ (exists f o,
           nth_error files (i - 1) = Some (f, o)
           /\ nm = name f /\ d = duration_of o)
    /\ 0 < df /\ df <= d /\ df <= td.
Proof.
  intros ta td te d df fe i n nm Hin.
  destruct (probe_all files) as [e | jobs] eqn:Hp.
  - unfold _worker in Hin. rewrite Hp in Hin.
    destruct Hin as [H | []]. discriminate.
  - destruct (worker_effects settings t0 files jobs Hp)
      as [total [effs [r [E [_ [He _]]]]]].
    rewrite He in Hin. apply in_app_or in Hin as [Hin | Hin].
    + destruct (run_files_progress_fields settings (List.length files) total
                  t0 jobs 1%nat initial_state ta td te d df fe i n nm)
        as [Hi [Hn [[a [o [Hnth Hnm]]] Hb]]].
      * now apply (probe_all_nonneg files).
      * cbn. lra.
      * now rewrite E.
      * split; [exact Hi |]. split; [exact Hn |]. split; [| exact Hb].
        destruct (probe_all_inr _ _ Hp) as [-> _].
        rewrite nth_error_map in Hnth.
        destruct (nth_error files (i - 1)) as [[f o'] |] eqn:En;
          [| discriminate].
        cbn [option_map] in Hnth. unfold probed in Hnth.
        cbn [fst snd] in Hnth. inversion Hnth; subst.
        do 2 eexists. split; [reflexivity |]. split; reflexivity.
    + destruct r as [e | [parts c]]; cbn [In] in Hin;
        repeat (destruct Hin as [Hin | Hin]; [discriminate |]);
        destruct Hin.
Qed.

(** X8.  Over a whole run, across files as well as within one, the
    total completed-seconds estimates of the progress events rise
    strictly: the total never stands still or moves back between two
    progress events. *)
Theorem total_estimate_rises_strictly settings t0 files :
  StronglySorted Qlt (total_values (effects (_worker settings t0 files))).
Proof.
  destruct (probe_all files) as [e | jobs] eqn:Hp.
  - unfold _worker. rewrite Hp. constructor.
  - destruct (worker_effects settings t0 files jobs Hp)
      as [total [effs [r [E [_ [He _]]]]]].
    rewrite He, total_values_app.
    replace (total_values match r with
                          | inl e => [Put (EvError e)]
                          | inr (parts, _) => _
                          end) with (@nil Q)
      by (now destruct r as [e | [parts c]]).
    rewrite app_nil_r.
    pose proof (run_files_total_increasing settings (List.length files) total
                  t0 jobs 1%nat initial_state
                  (probe_all_nonneg files jobs Hp)) as [Hs _].
    now rewrite E in Hs.
Qed.

Lemma progress_events_describe_their_file_witness :
  exists d df : Q, 0 < df /\ df <= d.
Proof.
  match eval vm_compute in
        (nth 2 (effects (_worker sample_settings 0 [(wav "a", obs_cancelled)]))
             Terminate) with
  | Put (EvProgress ?ta ?td ?te ?d ?df ?fe ?i ?n ?nm) =>
      destruct (progress_events_describe_their_file
                  sample_settings 0 [(wav "a", obs_cancelled)]
                  ta td te d df fe i n nm)
        as [_ [_ [_ [H0 [H1 _]]]]];
      [vm_compute; right; right; left; reflexivity
      | exists d, df; split; [exact H0 | exact H1]]
  end.
Defined.

(** * Further properties of the basename deriver *)

Lemma startswith_refl (s : string) : startswith s s = true.
Proof. induction s as [| c r IH]; cbn; [reflexivity |]. now rewrite Ascii.eqb_refl. Qed.

Lemma startswith_cons (a b : ascii) (p s : string) :
  startswith (String a p) (String b s) = (a =? b)%char && startswith p s.
Proof. reflexivity. Qed.

Lemma startswith_nil (s : string) : startswith EmptyString s = true.
Proof. now destruct s. Qed.

Lemma startswith_trans (a b c : string) :
  startswith a b = true -> startswith b c = true -> startswith a c = true.
Proof.
  revert b c. induction a as [| x a IH]; intros b c Hab Hbc;
    [apply startswith_nil |].
  destruct b as [| y b]; [discriminate |].
  destruct c as [| z c]; [discriminate |].
  cbn in *. apply andb_prop in Hab as [Hxy Hab], Hbc as [Hyz Hbc].
  apply Ascii.eqb_eq in Hxy, Hyz. subst.
  now rewrite Ascii.eqb_refl, (IH _ _ Hab Hbc).
Qed.

Lemma startswith_antisym (a b : string) :
  startswith a b = true -> startswith b a = true -> a = b.
Proof.
  revert b. induction a as [| x a IH]; intros [| y b] Hab Hba;
    try reflexivity; try discriminate.
  cbn in *. apply andb_prop in Hab as [Hxy Hab], Hba as [_ Hba].
  apply Ascii.eqb_eq in Hxy. subst. f_equal. now apply IH.
Qed.

Lemma common_prefix_l (a b : string) : startswith (common_prefix a b) a = true.
Proof.
  revert b. induction a as [| x a IH]; intros [| y b]; try reflexivity.
  cbn [common_prefix]. destruct (Ascii.eqb x y); [| reflexivity].
  cbn. now rewrite Ascii.eqb_refl, IH.
Qed.

Lemma common_prefix_r (a b : string) : startswith (common_prefix a b) b = true.
Proof.
  revert b. induction a as [| x a IH]; intros [| y b]; try reflexivity.
  cbn [common_prefix]. destruct (Ascii.eqb_spec x y); [| reflexivity].
  subst. cbn. now rewrite Ascii.eqb_refl, IH.
Qed.

Lemma common_prefix_greatest (c a b : string) :
  startswith c a = true -> startswith c b = true ->
  startswith c (common_prefix a b) = true.
Proof.
  revert a b. induction c as [| z c IH]; intros a b Ha Hb;
    [apply startswith_nil |].
  destruct a as [| x a]; [discriminate |].
  destruct b as [| y b]; [discriminate |].
  cbn in Ha, Hb. apply andb_prop in Ha as [Hx Ha], Hb as [Hy Hb].
  apply Ascii.eqb_eq in Hx, Hy. subst.
  cbn [common_prefix]. rewrite Ascii.eqb_refl. cbn.
  now rewrite Ascii.eqb_refl, IH.
Qed.

(** [shrink_prefix] yields the longest common prefix of the stems. *)
Lemma shrink_prefix_common (rest : list string) :
  forall base,
    startswith (shrink_prefix base rest) base = true
    /\ Forall (fun s => startswith (shrink_prefix base rest) s = true) rest.
Proof.
  induction rest as [| s rest IH]; intros base; cbn [shrink_prefix].
  - split; [apply startswith_refl | constructor].
  - destruct (common_prefix base s) as [| c p] eqn:E.
    + split; [reflexivity |]. apply Forall_forall. intros x _.
      apply startswith_nil.
    + destruct (IH (String c p)) as [H1 H2].
      pose proof (common_prefix_l base s) as Hl.
      pose proof (common_prefix_r base s) as Hr. rewrite E in Hl, Hr.
      split; [| constructor; [| exact H2]].
      * eapply startswith_trans; [exact H1 | exact Hl].
      * eapply startswith_trans; [exact H1 | exact Hr].
Qed.

Lemma shrink_prefix_greatest (rest : list string) :
  forall base c,
    startswith c base = true ->
    Forall (fun s => startswith c s = true) rest ->
    startswith c (shrink_prefix base rest) = true.
Proof.
  induction rest as [| s rest IH]; intros base c Hb Hall;
    cbn [shrink_prefix]; [exact Hb |].
  inversion Hall as [| x l Hs Hrest]; subst.
  pose proof (common_prefix_greatest c base s Hb Hs) as Hg.
  destruct (common_prefix base s) as [| d p]; [exact Hg |].
  now apply IH.
Qed.

Lemma rstrip_with_prefix (p : ascii -> bool) (s : string) :
  startswith (rstrip_with p s) s = true.
Proof.
  induction s as [| c r IH]; [reflexivity |]. cbn [rstrip_with].
  destruct (rstrip_with p r) as [| c' r'].
  - destruct (p c); [reflexivity |]. cbn. now rewrite Ascii.eqb_refl.
  - rewrite startswith_cons. now rewrite Ascii.eqb_refl, IH.
Qed.

Lemma last_char_cons (c : ascii) (r : string) :
  last_char (String c r)
  = match last_char r with
    | Some x => Some x
    | None => Some c
    end.
Proof.
  unfold last_char. cbn [list_ascii_of_string rev].
  now destruct (rev (list_ascii_of_string r)).
Qed.

Lemma rstrip_with_last (p : ascii -> bool) (s : string) :
  match last_char (rstrip_with p s) with
  | Some c => p c = false
  | None => rstrip_with p s = EmptyString
  end.
Proof.
  induction s as [| c r IH]; [reflexivity |]. cbn [rstrip_with].
  destruct (rstrip_with p r) as [| c' r'] eqn:E.
  - destruct (p c) eqn:Ec; [reflexivity | exact Ec].
  - rewrite last_char_cons.
    destruct (last_char (String c' r')); [exact IH | discriminate].
Qed.

(** X9.  Whatever the queue, the derived name is not empty and does not
    end in a separator character (space, dot, hyphen or underscore). *)
Theorem basename_is_clean (files : list Path) :
  derive_merged_basename files <> EmptyString
  /\ exists c, last_char (derive_merged_basename files) = Some c
               /\ is_trim c = false.
Proof.
  unfold derive_merged_basename.
  destruct (map stem files) as [| s0 rest].
  - split; [discriminate | now exists "d"%char].
  - cbn zeta.
    set (x := sub_digit_groups _).
    pose proof (rstrip_with_last is_trim x) as H.
    destruct (rstrip_with is_trim x) as [| c r] eqn:E.
    + split; [discriminate | now exists "d"%char].
    + cbn [or_merged]. split; [discriminate |].
      destruct (last_char (String c r)) as [c' |]; [| discriminate].
      now exists c'.
Qed.

Lemma startswith_list (a b : list ascii) :
  startswith (string_of_list_ascii a) (string_of_list_ascii (a ++ b)) = true.
Proof.
  induction a as [| c a IH]; cbn [app string_of_list_ascii];
    [apply startswith_nil |].
  now rewrite startswith_cons, Ascii.eqb_refl.
Qed.

Lemma drop_digit_groups_suffix (rs : list ascii) :
  forall after_digit,
  exists pre, rs = pre ++ drop_digit_groups after_digit rs.
Proof.
  induction rs as [| c rs IH]; intros b; cbn [drop_digit_groups].
  - now exists [].
  - destruct (isdigit c).
    + destruct (IH true) as [pre E]. exists (c :: pre). cbn [app]. now f_equal.
    + destruct (is_sep c && b).
      * destruct (IH false) as [pre E]. exists (c :: pre). cbn [app].
        now f_equal.
      * now exists [].
Qed.

Lemma no_newline_chars (s : string) (c : ascii) :
  no_newline s = true -> In c (list_ascii_of_string s) -> is_newline c = false.
Proof.
  induction s as [| a r IH]; cbn [no_newline list_ascii_of_string In];
    [intros _ [] |].
  intros H [-> | Hin]; apply andb_prop in H as [Ha Hr].
  - now apply negb_true_iff in Ha.
  - now apply IH.
Qed.

Lemma no_newline_prefix (a b : string) :
  startswith a b = true -> no_newline b = true -> no_newline a = true.
Proof.
  revert b. induction a as [| x a IH]; intros [| y b] Hp Hn;
    try reflexivity; try discriminate.
  rewrite startswith_cons in Hp. apply andb_prop in Hp as [Hxy Hp].
  apply Ascii.eqb_eq in Hxy. subst y.
  cbn [no_newline] in *. apply andb_prop in Hn as [Hy Hn].
  now rewrite Hy, (IH _ Hp Hn).
Qed.

(** Without a line feed in the text, removing the trailing digit groups
    leaves a prefix of it. *)
Lemma sub_digit_groups_prefix (s : string) :
  no_newline s = true -> startswith (sub_digit_groups s) s = true.
Proof.
  intros Hn. unfold sub_digit_groups.
  destruct (rev (list_ascii_of_string s)) as [| c rs] eqn:E;
    [apply startswith_nil |].
  assert (Hc : is_newline c = false).
  { apply (no_newline_chars s c Hn). apply in_rev. rewrite E. now left. }
  unfold is_newline in Hc. apply orb_false_iff in Hc as [Hc _]. rewrite Hc.
  destruct (drop_digit_groups_suffix (c :: rs) false) as [pre Hpre].
  assert (Hs : s = string_of_list_ascii
                     (rev (drop_digit_groups false (c :: rs)) ++ rev pre)).
  { rewrite <- rev_app_distr, <- Hpre, <- E, rev_involutive.
    now rewrite string_of_list_ascii_of_string. }
  rewrite Hs. apply startswith_list.
Qed.

(** X10.  When no stem holds a line feed, the derived name is either the
    fallback "merged" or a prefix of the stem of every queued file. *)
Theorem basename_is_common_prefix (files : list Path) :
  Forall (fun f => no_newline (stem f) = true) files ->
  derive_merged_basename files = "merged"
  \/ Forall (fun f => startswith (derive_merged_basename files) (stem f) = true)
            files.
Proof.
  intros Hn. unfold derive_merged_basename.
  rewrite <- (Forall_map stem (fun s => no_newline s = true)) in Hn.
  rewrite <- (Forall_map stem
                (fun s => startswith (match map stem files with
                                      | [] => "merged"
                                      | s0 :: rest => _
                                      end) s = true)).
  destruct (map stem files) as [| s0 rest]; [now left |].
  cbn zeta.
  assert (Hbase : match rest with
                  | [] => s0
                  | _ :: _ => shrink_prefix s0 rest
                  end = shrink_prefix s0 rest) by (now destruct rest).
  rewrite Hbase.
  destruct (shrink_prefix_common rest s0) as [H0 Hrest].
  inversion Hn as [| x l Hn0 Hnrest]; subst.
  set (b0 := shrink_prefix s0 rest) in *.
  set (b1 := rstrip_with is_trim b0).
  assert (H1 : startswith b1 b0 = true) by apply rstrip_with_prefix.
  assert (Hn1 : no_newline b1 = true).
  { apply (no_newline_prefix b1 s0); [| exact Hn0].
    eapply startswith_trans; eassumption. }
  pose proof (sub_digit_groups_prefix b1 Hn1) as H2.
  pose proof (rstrip_with_prefix is_trim (sub_digit_groups b1)) as H3.
  destruct (rstrip_with is_trim (sub_digit_groups b1)) as [| c r];
    [now left |].
  right. cbn [or_merged].
  assert (Hb : startswith (String c r) b0 = true).
  { eapply startswith_trans; [exact H3 |].
    eapply startswith_trans; [exact H2 | exact H1]. }
  constructor.
  - eapply startswith_trans; eassumption.
  - eapply Forall_impl; [| exact Hrest].
    intros s Hs. eapply startswith_trans; eassumption.
Qed.

Lemma basename_is_common_prefix_witness :
  Forall (fun f => startswith "rec" (stem f) = true)
         [wav "rec 01"; wav "rec 02"; wav "rec 10"].
Proof.
  destruct (basename_is_common_prefix
              [wav "rec 01"; wav "rec 02"; wav "rec 10"]) as [H | H].
  - repeat constructor.
  - discriminate H.
  - exact H.
Defined.

(** X11.  The derived name does not depend on the order of the queue. *)
Theorem basename_ignores_queue_order (files files' : list Path) :
  Permutation files files' ->
  derive_merged_basename files = derive_merged_basename files'.
Proof.
  intros Hperm. apply (Permutation_map stem) in Hperm.
  unfold derive_merged_basename.
  destruct (map stem files) as [| s0 rest],
           (map stem files') as [| s0' rest'].
  - reflexivity.
  - now apply Permutation_nil in Hperm.
  - apply Permutation_sym in Hperm. now apply Permutation_nil in Hperm.
  - cbn zeta.
    assert (Hb : forall s r, match r with
                             | [] => s
                             | _ :: _ => shrink_prefix s r
                             end = shrink_prefix s r)
      by (intros s r; now destruct r).
    rewrite !Hb.
    assert (Hle : forall a r a' r',
               Permutation (a :: r) (a' :: r') ->
               startswith (shrink_prefix a r) (shrink_prefix a' r') = true).
    { intros a r a' r' Hp.
      destruct (shrink_prefix_common r a) as [H0 Hr].
      assert (Hall : Forall (fun s => startswith (shrink_prefix a r) s = true)
                            (a' :: r'))
        by (eapply Permutation_Forall; [exact Hp | now constructor]).
      inversion Hall; subst. now apply shrink_prefix_greatest. }
    assert (E : shrink_prefix s0 rest = shrink_prefix s0' rest').
    { apply startswith_antisym; apply Hle;
        [exact Hperm | now apply Permutation_sym]. }
    now rewrite E.
Qed.

Lemma basename_ignores_queue_order_witness :
  derive_merged_basename [wav "talk_02"; wav "talk_01"; wav "talk_03"]
  = derive_merged_basename [wav "talk_01"; wav "talk_02"; wav "talk_03"].
Proof.
  apply basename_ignores_queue_order. apply perm_swap.
Defined.

(** * Elapsed-time labels *)

Lemma py_int_bounds (q : Q) :
  0 <= q -> (0 <= py_int q)%Z /\ inject_Z (py_int q) <= q < inject_Z (py_int q) + 1.
Proof.
  destruct q as [n d]. unfold py_int, Qle, Qlt, inject_Z. cbn.
  intros Hn. rewrite Z.mul_1_r in Hn.
  rewrite Z.quot_div_nonneg by lia.
  pose proof (Z.div_mod n (Z.pos d) ltac:(lia)) as Hdm.
  pose proof (Z.mod_pos_bound n (Z.pos d) ltac:(lia)) as Hmod.
  pose proof (Z.div_pos n (Z.pos d) Hn ltac:(lia)) as Hdiv.
  split; [exact Hdiv |]. split; nia.
Qed.

Lemma fmt_02d_two_chars (n : Z) :
  (0 <= n < 60)%Z -> String.length (fmt_02d n) = 2%nat.
Proof.
  intros Hn.
  assert (Hall : forallb (fun k => Nat.eqb (String.length (fmt_02d (Z.of_nat k))) 2)
                         (seq 0 60) = true) by (vm_compute; reflexivity).
  rewrite forallb_forall in Hall.
  specialize (Hall (Z.to_nat n)). rewrite Z2Nat.id in Hall by lia.
  apply Nat.eqb_eq, Hall, in_seq. lia.
Qed.

Lemma append_length (a b : string) :
  String.length (a +++ b) = (String.length a + String.length b)%nat.
Proof. induction a as [| c a IH]; cbn; [reflexivity | now rewrite IH]. Qed.

(** X12.  A duration below one second, negative ones included, is shown
    as 00:00. *)
Theorem fmt_interval_below_one_second (seconds : Q) :
  seconds < 1 -> fmt_interval seconds = "00:00".
Proof.
  intros H. unfold fmt_interval.
  assert (Hz : py_int (pymax 0 seconds) = 0%Z).
  { pose proof (pymax_lower 0 seconds) as Hlo.
    destruct (py_int_bounds _ Hlo) as [H0 [H1 H2]].
    assert (Hlt : pymax 0 seconds < 1)
      by (unfold pymax; destruct (Qlt_le_dec 0 seconds); lra).
    assert (Hq : inject_Z (py_int (pymax 0 seconds)) < inject_Z 1)
      by (change (inject_Z 1) with 1; lra).
    rewrite <- Zlt_Qlt in Hq. lia. }
  rewrite Hz. reflexivity.
Qed.

Lemma fmt_interval_below_one_second_witness :
  fmt_interval (-3.5) = "00:00" /\ fmt_interval 0.99 = "00:00".
Proof.
  split; apply fmt_interval_below_one_second; reflexivity.
Defined.

(** X13.  The label shows the whole seconds of a duration, never
    rounding up.  Below one hour it is minutes and seconds, MM:SS, five
    characters; from one hour on the hours come first.  Minutes and
    seconds are below 60 and always take two digits. *)
Theorem fmt_interval_fields (seconds : Q) :
  let t := py_int (pymax 0 seconds) in
  (0 <= t)%Z
  /\ inject_Z t <= pymax 0 seconds < inject_Z t + 1
  /\ fmt_interval seconds
     = (if (t <? 3600)%Z then
          fmt_02d (t / 60) +++ ":" +++ fmt_02d (t mod 60)
        else
          str_of_int (t / 3600) +++ ":" +++ fmt_02d (t / 60 mod 60)
                     +++ ":" +++ fmt_02d (t mod 60))
  /\ String.length (fmt_02d (t / 60 mod 60)) = 2%nat
  /\ String.length (fmt_02d (t mod 60)) = 2%nat
  /\ ((t <? 3600)%Z = true -> String.length (fmt_interval seconds) = 5%nat).
Proof.
  intros t.
  destruct (py_int_bounds _ (pymax_lower 0 seconds)) as [H0 Hb].
  fold t in H0, Hb.
  assert (Hfmt : fmt_interval seconds
                 = (if (t <? 3600)%Z then
                      fmt_02d (t / 60) +++ ":" +++ fmt_02d (t mod 60)
                    else
                      str_of_int (t / 3600) +++ ":" +++ fmt_02d (t / 60 mod 60)
                                 +++ ":" +++ fmt_02d (t mod 60))).
  { unfold fmt_interval. fold t. cbn zeta.
    rewrite Z.div_div by lia. change (60 * 60)%Z with 3600%Z.
    destruct (Z.ltb_spec t 3600) as [Hlt | Hge].
    - rewrite Z.div_small by lia. cbn [Z.ltb Z.compare].
      now rewrite (Z.mod_small (t / 60) 60)
        by (split; [apply Z.div_pos; lia | apply Z.div_lt_upper_bound; lia]).
    - assert (0 < t / 3600)%Z by (apply Z.div_str_pos; lia).
      destruct (Z.ltb_spec 0 (t / 3600)); [reflexivity | lia]. }
  assert (Hm : String.length (fmt_02d (t / 60 mod 60)) = 2%nat)
    by (apply fmt_02d_two_chars, Z.mod_pos_bound; lia).
  assert (Hs : String.length (fmt_02d (t mod 60)) = 2%nat)
    by (apply fmt_02d_two_chars, Z.mod_pos_bound; lia).
  repeat split; try assumption; try apply Hb.
  intros Hlt. rewrite Hfmt, Hlt, !append_length, Hs.
  rewrite <- (Z.mod_small (t / 60) 60), Hm; [reflexivity |].
  apply Z.ltb_lt in Hlt.
  split; [apply Z.div_pos; lia | apply Z.div_lt_upper_bound; lia].
Qed.

Lemma fmt_interval_fields_witness :
  fmt_interval 3599.9 = "59:59" /\ String.length (fmt_interval 3599.9) = 5%nat
  /\ fmt_interval 3725 = "1:02:05".
Proof.
  destruct (fmt_interval_fields 3599.9) as [_ [_ [_ [_ [_ H]]]]].
  split; [reflexivity |]. split; [apply H; reflexivity | reflexivity].
Defined.

(** * Dropped paths *)

Lemma dnd_scan_nonempty (raw : string) :
  forall out token in_brace,
    Forall (fun t => t <> EmptyString) out ->
    Forall (fun t => t <> EmptyString) (dnd_scan raw out token in_brace).
Proof.
  assert (Hsnoc : forall out c t,
             Forall (fun t => t <> EmptyString) out ->
             Forall (fun t => t <> EmptyString) (out ++ [String c t])).
  { intros out c t H. apply Forall_app; split; [exact H |].
    constructor; [discriminate | constructor]. }
  induction raw as [| ch r IH]; intros out token in_brace Hout;
    cbn [dnd_scan].
  - destruct token; [exact Hout | now apply Hsnoc].
  - destruct (ch =? "{")%char; [now apply IH |].
    destruct (ch =? "}")%char.
    + destruct token; apply IH; [exact Hout | now apply Hsnoc].
    + destruct (isspace ch && negb in_brace); [| now apply IH].
      destruct token; apply IH; [exact Hout | now apply Hsnoc].
Qed.

(** X14.  No token returned for a drop is empty. *)
Theorem dropped_paths_are_not_empty (raw : string) :
  Forall (fun t => t <> EmptyString) (normalize_dnd_paths raw).
Proof.
  unfold normalize_dnd_paths.
  destruct (strip raw); [constructor |].
  apply dnd_scan_nonempty. constructor.
Qed.

Lemma lstrip_all (p : ascii -> bool) (s : string) :
  all_chars p s = true -> lstrip_with p s = EmptyString.
Proof.
  induction s as [| c r IH]; [reflexivity |]. cbn [all_chars lstrip_with].
  intros H. apply andb_prop in H as [Hc Hr]. now rewrite Hc, IH.
Qed.

(** X15.  A drop made of white space only, the empty one included,
    yields no path. *)
Theorem blank_drop_yields_nothing (raw : string) :
  all_chars isspace raw = true -> normalize_dnd_paths raw = [].
Proof.
  intros H. unfold normalize_dnd_paths, strip.
  now rewrite (lstrip_all _ _ H).
Qed.

Lemma blank_drop_yields_nothing_witness :
  normalize_dnd_paths ("  " +++ LF +++ " ") = [].
Proof. apply blank_drop_yields_nothing. reflexivity. Defined.

Lemma append_assoc3 (a b c : string) : (a +++ b) +++ c = a +++ b +++ c.
Proof. induction a as [| x a IH]; cbn; [reflexivity | now rewrite IH]. Qed.

Lemma last_char_some (c : ascii) (r : string) :
  exists d, last_char (String c r) = Some d.
Proof.
  revert c. induction r as [| x r IH]; intros c; [now exists c |].
  rewrite last_char_cons. destruct (IH x) as [d ->]. now exists d.
Qed.

Lemma last_char_app (a b : string) :
  b <> EmptyString -> last_char (a +++ b) = last_char b.
Proof.
  intros Hb. induction a as [| c a IH]; [reflexivity |].
  cbn [String.append]. rewrite last_char_cons, IH.
  destruct b as [| x b]; [congruence |].
  now destruct (last_char_some x b) as [d ->].
Qed.

Lemma last_char_all (p : ascii -> bool) (s : string) (d : ascii) :
  all_chars p s = true -> last_char s = Some d -> p d = true.
Proof.
  induction s as [| c r IH]; [discriminate |].
  cbn [all_chars]. intros H. apply andb_prop in H as [Hc Hr].
  rewrite last_char_cons.
  destruct (last_char r) as [x |] eqn:E; intros Hd; inversion Hd; subst;
    [now apply IH | exact Hc].
Qed.

Lemma rstrip_with_keeps (p : ascii -> bool) (s : string) (d : ascii) :
  last_char s = Some d -> p d = false -> rstrip_with p s = s.
Proof.
  induction s as [| c r IH]; [discriminate |].
  rewrite last_char_cons. cbn [rstrip_with].
  destruct r as [| x r].
  - cbn. intros Hd Hp. inversion Hd; subst. now rewrite Hp.
  - destruct (last_char_some x r) as [y Hy]. rewrite Hy. intros Hd Hp.
    inversion Hd; subst y. now rewrite (IH Hy Hp).
Qed.

Lemma strip_trimmed (s : string) : trimmed s -> strip s = s.
Proof.
  intros [[c [r [-> Hc]]] [d [Hd Hp]]]. unfold strip.
  cbn [lstrip_with]. rewrite Hc. now apply (rstrip_with_keeps _ _ d).
Qed.

Lemma trimmed_join (a b : string) :
  trimmed a -> trimmed b -> trimmed (a +++ " " +++ b).
Proof.
  intros [[c [r [-> Hc]]] _] [[x [y [-> Hx]]] [d [Hd Hp]]]. split.
  - now exists c, (r +++ " " +++ String x y).
  - exists d. split; [| exact Hp].
    rewrite last_char_app by discriminate.
    change (" " +++ String x y) with (String " " (String x y)).
    now rewrite last_char_cons, Hd.
Qed.

Lemma render_item_trimmed (i : DndItem) :
  item_ok i = true -> trimmed (render_item i).
Proof.
  unfold item_ok, render_item. destruct i as [[] t]; cbn [item_braced item_text].
  - intros _. split; [now exists "{"%char, (t +++ "}") |].
    exists "}"%char. split; [| reflexivity].
    change ("{" +++ t +++ "}") with (String "{" (t +++ "}")).
    rewrite last_char_cons, last_char_app by discriminate. reflexivity.
  - intros H. apply andb_prop in H as [H Hs]. apply andb_prop in H as [Hn _].
    cbn [orb] in Hs. destruct t as [| c r]; [discriminate |]. split.
    + exists c, r. split; [reflexivity |]. cbn [all_chars] in Hs.
      apply andb_prop in Hs as [Hc _]. now apply negb_true_iff in Hc.
    + destruct (last_char_some c r) as [d Hd]. exists d. split; [exact Hd |].
      apply negb_true_iff.
      exact (last_char_all (fun c => negb (isspace c)) _ _ Hs Hd).
Qed.

Lemma join_items_trimmed (i : DndItem) (items : list DndItem) :
  Forall (fun i => item_ok i = true) (i :: items) ->
  trimmed (join " " (map render_item (i :: items))).
Proof.
  revert i. induction items as [| j items IH]; intros i H;
    inversion H as [| x l Hi Hrest]; subst; cbn [map join].
  - now apply render_item_trimmed.
  - apply trimmed_join; [now apply render_item_trimmed | now apply IH].
Qed.

(** Plain text is read into the token character by character. *)
Lemma dnd_scan_text (t : string) :
  forall tail out token in_brace,
    all_chars (fun c => negb (is_brace c)) t = true ->
    in_brace = true \/ all_chars (fun c => negb (isspace c)) t = true ->
    dnd_scan (t +++ tail) out token in_brace
    = dnd_scan tail out (token +++ t) in_brace.
Proof.
  induction t as [| c r IH]; intros tail out token in_brace Hb Hs.
  - cbn [String.append]. f_equal. clear. induction token; cbn; congruence.
  - cbn [all_chars] in Hb. apply andb_prop in Hb as [Hc Hb].
    apply negb_true_iff, orb_false_iff in Hc as [Ho Hcl].
    cbn [String.append dnd_scan]. rewrite Ho, Hcl.
    assert (Hsp : isspace c && negb in_brace = false).
    { destruct Hs as [-> | Hs]; [apply andb_false_r |].
      cbn [all_chars] in Hs. apply andb_prop in Hs as [Hs _].
      apply negb_true_iff in Hs. now rewrite Hs. }
    rewrite Hsp, IH.
    + f_equal. rewrite append_assoc3. reflexivity.
    + exact Hb.
    + destruct Hs as [Hs | Hs]; [now left | right].
      cbn [all_chars] in Hs. now apply andb_prop in Hs as [_ Hs].
Qed.

(** An item at the head of the text becomes the next token. *)
Lemma dnd_scan_item (i : DndItem) (out : list string) :
  item_ok i = true ->
  dnd_scan (render_item i) out EmptyString false = out ++ [item_text i]
  /\ forall more,
      dnd_scan (render_item i +++ " " +++ more) out EmptyString false
      = dnd_scan more (out ++ [item_text i]) EmptyString false.
Proof.
  unfold item_ok, render_item. destruct i as [b t].
  cbn [item_braced item_text]. intros H.
  apply andb_prop in H as [H Hs]. apply andb_prop in H as [Hn Hb].
  destruct t as [| c r] eqn:Et; [discriminate |]. rewrite <- Et in *.
  assert (Htok : forall tail o,
             dnd_scan (if b then "{" +++ t +++ "}" else t) o EmptyString false
             = o ++ [t]
             /\ dnd_scan ((if b then "{" +++ t +++ "}" else t)
                            +++ " " +++ tail) o EmptyString false
                = dnd_scan tail (o ++ [t]) EmptyString false).
  { intros tail o. destruct b.
    - change ("{" +++ t +++ "}") with (String "{" (t +++ "}")).
      cbn [String.append dnd_scan Ascii.eqb Bool.eqb].
      rewrite append_assoc3.
      rewrite !dnd_scan_text by (auto using orb_true_l).
      cbn [String.append dnd_scan Ascii.eqb Bool.eqb].
      rewrite Et. cbn [andb isspace]. split; reflexivity.
    - cbn [orb] in Hs.
      pose proof (dnd_scan_text t EmptyString o EmptyString false Hb
                                (or_intror Hs)) as H1.
      pose proof (dnd_scan_text t (" " +++ tail) o EmptyString false Hb
                                (or_intror Hs)) as H2.
      assert (Ht : t +++ EmptyString = t)
        by (clear; induction t; cbn; congruence).
      rewrite Ht in H1. rewrite H1, H2.
      cbn [String.append dnd_scan Ascii.eqb Bool.eqb]. rewrite Et.
      split; reflexivity. }
  split; [apply (Htok EmptyString) | intros more; apply (Htok more)].
Qed.

Lemma dnd_scan_items (items : list DndItem) :
  forall out,
    Forall (fun i => item_ok i = true) items ->
    dnd_scan (join " " (map render_item items)) out EmptyString false
    = out ++ map item_text items.
Proof.
  induction items as [| i items IH]; intros out H.
  - cbn. now rewrite app_nil_r.
  - inversion H as [| x l Hi Hrest]; subst.
    destruct (dnd_scan_item i out Hi) as [Hlast Hmore].
    destruct items as [| j items].
    + cbn [map join]. exact Hlast.
    + change (join " " (map render_item (i :: j :: items)))
        with (render_item i +++ " " +++ join " " (map render_item (j :: items))).
      rewrite Hmore, IH by exact Hrest.
      cbn [map]. now rewrite <- app_assoc.
Qed.

(** X16.  A drop that lists paths separated by single spaces, each
    either wrapped in braces or bare, is read back as exactly those
    paths, in order; a path with spaces survives when it is wrapped. *)
Theorem dropped_paths_round_trip (items : list DndItem) :
  Forall (fun i => item_ok i = true) items ->
  normalize_dnd_paths (join " " (map render_item items))
  = map item_text items.
Proof.
  intros H. unfold normalize_dnd_paths.
  destruct items as [| i items]; [reflexivity |].
  pose proof (join_items_trimmed i items H) as Ht.
  rewrite (strip_trimmed _ Ht).
  destruct Ht as [[c [r [E _]]] _]. rewrite E, <- E.
  now rewrite dnd_scan_items.
Qed.

Lemma dropped_paths_round_trip_witness :
  normalize_dnd_paths "{C:/My Music/take 1.wav} C:/a.mp3 {D:/b c.ogg}"
  = ["C:/My Music/take 1.wav"; "C:/a.mp3"; "D:/b c.ogg"].
Proof.
  apply (dropped_paths_round_trip sample_drop). repeat constructor.
Defined.

(** * The queue *)

Section QueueFacts.

Variable Path_of : string -> Path.
Variable normcase : string -> string.
Variable is_dir : Path -> bool.

Local Abbreviation add := (add_loop Path_of normcase is_dir).
Local Abbreviation is_in := (path_in normcase).
Local Abbreviation key := (path_key normcase).

Lemma path_in_key (p : Path) (fs : list Path) :
  is_in p fs = true <-> In (key p) (map key fs).
Proof.
  unfold path_in, path_eqb, path_key. rewrite existsb_exists, in_map_iff.
  split; intros [x [H1 H2]]; exists x.
  - apply String.eqb_eq in H2. now split.
  - split; [exact H2 | apply String.eqb_eq; now symmetry].
Qed.

(** What the loop appends: files taken from the input that are
    supported and no directories; the listbox gets their paths. *)
Lemma add_loop_appends (paths : list string) :
  forall q added,
  exists new,
    q_files (fst (add paths q added)) = q_files q ++ new
    /\ q_lst (fst (add paths q added)) = q_lst q ++ map path_str new
    /\ snd (add paths q added) = (added + List.length new)%nat
    /\ Forall (fun p => In p (map Path_of paths)
                        /\ is_dir p = false /\ supported p = true) new.
Proof.
  induction paths as [| s rest IH]; intros q added; cbn [add_loop].
  - exists []. cbn [fst snd map List.length]. rewrite !app_nil_r, Nat.add_0_r.
    repeat split. constructor.
  - assert (Hskip : exists new,
               q_files (fst (add rest q added)) = q_files q ++ new
               /\ q_lst (fst (add rest q added)) = q_lst q ++ map path_str new
               /\ snd (add rest q added) = (added + List.length new)%nat
               /\ Forall (fun p => In p (map Path_of (s :: rest))
                                   /\ is_dir p = false /\ supported p = true)
                         new).
    { destruct (IH q added) as [new [H1 [H2 [H3 H4]]]]. exists new.
      repeat split; try assumption.
      eapply Forall_impl; [| exact H4]. intros p [Hin Hp].
      split; [now right | exact Hp]. }
    destruct (MAX_QUEUE <=? List.length (q_files q))%nat.
    { exists []. cbn [fst snd map List.length].
      rewrite !app_nil_r, Nat.add_0_r. repeat split. constructor. }
    cbn zeta. destruct (is_dir (Path_of s)) eqn:Ed; [exact Hskip |].
    destruct (supported (Path_of s)) eqn:Es; cbn [negb]; [| exact Hskip].
    destruct (is_in (Path_of s) (q_files q)); cbn [negb]; [exact Hskip |].
    destruct (IH (mkQueue (q_files q ++ [Path_of s])
                          (q_lst q ++ [path_str (Path_of s)])) (S added))
      as [new [H1 [H2 [H3 H4]]]].
    exists (Path_of s :: new). cbn [q_files q_lst] in H1, H2.
    rewrite H1, H2, H3, <- !app_assoc. cbn [app map List.length].
    repeat split; [lia |].
    constructor; [split; [now left | now split] |].
    eapply Forall_impl; [| exact H4]. intros p [Hin Hp].
    split; [now right | exact Hp].
Qed.

Lemma add_loop_cap (paths : list string) :
  forall q added,
    (List.length (q_files q) <= MAX_QUEUE)%nat ->
    (List.length (q_files (fst (add paths q added))) <= MAX_QUEUE)%nat.
Proof.
  induction paths as [| s rest IH]; intros q added Hq; cbn [add_loop];
    [exact Hq |].
  destruct (Nat.leb_spec MAX_QUEUE (List.length (q_files q))); [exact Hq |].
  cbn zeta. destruct (is_dir (Path_of s)); [now apply IH |].
  destruct (supported (Path_of s)); cbn [negb]; [| now apply IH].
  destruct (is_in (Path_of s) (q_files q)); cbn [negb]; [now apply IH |].
  apply IH. cbn [q_files]. rewrite length_app. cbn [List.length]. lia.
Qed.

Lemma add_loop_distinct (paths : list string) :
  forall q added,
    NoDup (map key (q_files q)) ->
    NoDup (map key (q_files (fst (add paths q added)))).
Proof.
  induction paths as [| s rest IH]; intros q added Hq; cbn [add_loop];
    [exact Hq |].
  destruct (MAX_QUEUE <=? List.length (q_files q))%nat; [exact Hq |].
  cbn zeta. destruct (is_dir (Path_of s)); [now apply IH |].
  destruct (supported (Path_of s)); cbn [negb]; [| now apply IH].
  destruct (is_in (Path_of s) (q_files q)) eqn:Ein; cbn [negb];
    [now apply IH |].
  apply IH. cbn [q_files]. rewrite map_app. cbn [map].
  apply NoDup_app; [exact Hq | repeat constructor; intros [] |].
  intros x Hx [<- | []]. apply path_in_key in Hx. congruence.
Qed.

Lemma add_loop_counter (paths : list string) :
  forall q a b, fst (add paths q a) = fst (add paths q b).
Proof.
  induction paths as [| s rest IH]; intros q a b; cbn [add_loop];
    [reflexivity |].
  destruct (MAX_QUEUE <=? List.length (q_files q))%nat; [reflexivity |].
  cbn zeta. destruct (is_dir (Path_of s)); [apply IH |].
  destruct (supported (Path_of s)); cbn [negb]; [| apply IH].
  destruct (is_in (Path_of s) (q_files q)); cbn [negb]; apply IH.
Qed.

Lemma add_loop_full (paths : list string) (q : Queue) (added : nat) :
  (MAX_QUEUE <= List.length (q_files q))%nat -> add paths q added = (q, added).
Proof.
  intros H. destruct paths as [| s rest]; [reflexivity |]. cbn [add_loop].
  destruct (Nat.leb_spec MAX_QUEUE (List.length (q_files q)));
    [reflexivity | lia].
Qed.

Lemma add_loop_settled (paths : list string) :
  forall q added,
    Forall (settled Path_of normcase is_dir q) paths ->
    add paths q added = (q, added).
Proof.
  induction paths as [| s rest IH]; intros q added H; [reflexivity |].
  inversion H as [| x l Hs Hrest]; subst. cbn [add_loop].
  destruct (Nat.leb_spec MAX_QUEUE (List.length (q_files q)));
    [reflexivity |].
  cbn zeta. destruct Hs as [Hs | [Hs | [Hs | Hs]]]; [lia | | |].
  - rewrite Hs. now apply IH.
  - destruct (is_dir (Path_of s)); [now apply IH |].
    rewrite Hs. cbn [negb]. now apply IH.
  - destruct (is_dir (Path_of s)); [now apply IH |].
    destruct (supported (Path_of s)); cbn [negb]; [| now apply IH].
    rewrite Hs. cbn [negb]. now apply IH.
Qed.

Lemma settled_grows (q : Queue) (new : list Path) (lst' : list string)
      (s : string) :
  settled Path_of normcase is_dir q s ->
  settled Path_of normcase is_dir (mkQueue (q_files q ++ new) lst') s.
Proof.
  intros [H | [H | [H | H]]]; [left | right; left | right; right; left
                               | right; right; right]; try assumption.
  - cbn [q_files]. rewrite length_app. lia.
  - cbn [q_files]. unfold path_in in *. rewrite existsb_app, H. reflexivity.
Qed.

(** After a pass over [paths], a second pass finds nothing to add. *)
Lemma add_loop_leaves_settled (paths : list string) :
  forall q added,
    Forall (settled Path_of normcase is_dir (fst (add paths q added))) paths.
Proof.
  induction paths as [| s rest IH]; intros q added; [constructor |].
  assert (Hkeep : forall q1 a1,
             settled Path_of normcase is_dir q1 s ->
             settled Path_of normcase is_dir (fst (add rest q1 a1)) s).
  { intros q1 a1 Hs.
    destruct (add_loop_appends rest q1 a1) as [new [H1 [H2 _]]].
    pose proof (settled_grows q1 new (q_lst (fst (add rest q1 a1))) s Hs) as Hg.
    rewrite <- H1 in Hg. now destruct (fst (add rest q1 a1)). }
  cbn [add_loop].
  destruct (Nat.leb_spec MAX_QUEUE (List.length (q_files q))) as [Hfull | Hroom].
  - cbn [fst]. apply Forall_forall. intros x _. now left.
  - cbn zeta. destruct (is_dir (Path_of s)) eqn:Ed.
    { constructor; [apply Hkeep; now right; left | apply IH]. }
    destruct (supported (Path_of s)) eqn:Es; cbn [negb].
    2:{ constructor; [apply Hkeep; now right; right; left | apply IH]. }
    destruct (is_in (Path_of s) (q_files q)) eqn:Ein; cbn [negb].
    { constructor; [apply Hkeep; now right; right; right | apply IH]. }
    constructor; [| apply IH].
    apply Hkeep. right; right; right. cbn [q_files].
    unfold path_in. rewrite existsb_app. cbn [existsb].
    unfold path_eqb. now rewrite String.eqb_refl, orb_true_r.
Qed.

Lemma add_paths_fst (paths : list string) (q : Queue) :
  fst (_add_paths Path_of normcase is_dir paths q) = fst (add paths q 0).
Proof. unfold _add_paths. now destruct (add_loop _ _ _ _ _ _). Qed.

End QueueFacts.



(** X18.  Adding paths only appends: the files already queued keep
    their places, and every file appended comes from the given paths,
    is no directory and has a supported audio extension, compared
    without regard to case.  The listbox gets the same rows appended,
    and a message is logged exactly when something was added. *)
Theorem add_paths_only_appends Path_of normcase is_dir paths q :
  exists new,
    q_files (fst (_add_paths Path_of normcase is_dir paths q))
    = q_files q ++ new
    /\ q_lst (fst (_add_paths Path_of normcase is_dir paths q))
       = q_lst q ++ map path_str new
    /\ Forall (fun p => In p (map Path_of paths)
                        /\ is_dir p = false
                        /\ In (str_lower (suffix p)) SUPPORTED_AUDIO_EXTS) new
    /\ (snd (_add_paths Path_of normcase is_dir paths q) = None
        <-> new = []).
Proof.
  destruct (add_loop_appends Path_of normcase is_dir paths q 0)
    as [new [H1 [H2 [H3 H4]]]].
  exists new. rewrite add_paths_fst. split; [exact H1 |]. split; [exact H2 |].
  split.
  - eapply Forall_impl; [| exact H4]. intros p [Hin [Hd Hs]].
    split; [exact Hin |]. split; [exact Hd |].
    unfold supported in Hs. apply existsb_exists in Hs as [x [Hx Hs]].
    apply String.eqb_eq in Hs. now subst.
  - unfold _add_paths.
    destruct (add_loop Path_of normcase is_dir paths q 0) as [q' added].
    cbn [snd] in *. subst added. destruct new; cbn [List.length Nat.add].
    + now split.
    + split; discriminate.
Qed.



(** X20.  Adding the same paths a second time adds nothing and logs
    nothing. *)
Theorem add_paths_twice_adds_nothing Path_of normcase is_dir paths q :
  _add_paths Path_of normcase is_dir paths
             (fst (_add_paths Path_of normcase is_dir paths q))
  = (fst (_add_paths Path_of normcase is_dir paths q), None).
Proof.
  rewrite add_paths_fst. unfold _add_paths at 1.
  now rewrite (add_loop_settled Path_of normcase is_dir paths _ 0
                 (add_loop_leaves_settled Path_of normcase is_dir paths q 0)).
Qed.

(** X21.  Files dropped on the listbox are queued exactly as if the
    paths of the drop had been added in one call. *)
Theorem drop_is_batch_add Path_of normcase is_dir data q :
  _on_drop_files Path_of normcase is_dir data q
  = fst (_add_paths Path_of normcase is_dir (normalize_dnd_paths data) q).
Proof.
  unfold _on_drop_files. rewrite add_paths_fst.
  generalize (normalize_dnd_paths data) as l. intros l. revert q.
  induction l as [| s rest IH]; intros q; [reflexivity |].
  cbn [fold_left]. rewrite IH, add_paths_fst. cbn [add_loop].
  destruct (Nat.leb_spec MAX_QUEUE (List.length (q_files q))) as [Hfull | Hroom].
  - cbn [fst]. now rewrite add_loop_full.
  - cbn zeta. destruct (is_dir (Path_of s)); [reflexivity |].
    destruct (supported (Path_of s)); cbn [negb]; [| reflexivity].
    destruct (path_in normcase (Path_of s) (q_files q)); cbn [negb fst];
      [reflexivity |].
    apply add_loop_counter.
Qed.

Lemma remove_at_map {A B : Type} (f : A -> B) (i : nat) (l : list A) :
  remove_at i (map f l) = map f (remove_at i l).
Proof.
  revert i. induction l as [| x r IH]; intros [| i]; cbn; try reflexivity.
  now rewrite IH.
Qed.

Lemma unselected_map {A B : Type} (f : A -> B) (sel : list nat) (l : list A) :
  forall k, unselected k sel (map f l) = map f (unselected k sel l).
Proof.
  induction l as [| x r IH]; intros k; cbn [map unselected]; [reflexivity |].
  destruct (existsb (Nat.eqb k) sel); cbn [map]; now rewrite IH.
Qed.

Lemma unselected_below {A : Type} (sel : list nat) (l : list A) :
  forall k j, (j < k)%nat -> unselected k (j :: sel) l = unselected k sel l.
Proof.
  induction l as [| x r IH]; intros k j Hj; cbn [unselected existsb];
    [reflexivity |].
  destruct (Nat.eqb_spec k j); [lia |]. cbn [orb].
  destruct (existsb (Nat.eqb k) sel); now rewrite IH by lia.
Qed.

Lemma unselected_none {A : Type} (l : list A) :
  forall k, unselected k [] l = l.
Proof. induction l as [| x r IH]; intros k; cbn; [reflexivity | now rewrite IH]. Qed.

Lemma remove_at_unselected {A : Type} (sel : list nat) (l : list A) :
  forall k i,
    Forall (fun j => (k + i < j)%nat) sel ->
    remove_at i (unselected k sel l) = unselected k ((k + i)%nat :: sel) l.
Proof.
  induction l as [| x r IH]; intros k i Hsel.
  - now destruct i.
  - assert (Hk : existsb (Nat.eqb k) sel = false).
    { apply not_true_is_false. intros H.
      apply existsb_exists in H as [j [Hj Hjk]]. apply Nat.eqb_eq in Hjk.
      rewrite Forall_forall in Hsel. specialize (Hsel j Hj). lia. }
    cbn [unselected existsb]. rewrite Hk. destruct i as [| i].
    + rewrite Nat.add_0_r, Nat.eqb_refl. cbn [orb remove_at].
      now rewrite unselected_below by lia.
    + destruct (Nat.eqb_spec k (k + S i)); [lia |]. cbn [orb remove_at].
      rewrite (IH (S k) i).
      * now rewrite Nat.add_succ_comm.
      * eapply Forall_impl; [| exact Hsel]. intros j Hj. cbn beta in *. lia.
Qed.

Lemma remove_rows {A : Type} (sel : list nat) :
  StronglySorted lt sel ->
  forall l : list A,
    fold_left (fun l i => remove_at i l) (rev sel) l = unselected 0 sel l.
Proof.
  induction 1 as [| i sel _ IH Hall]; intros l.
  - cbn. now rewrite unselected_none.
  - cbn [rev]. rewrite fold_left_app. cbn [fold_left]. rewrite IH.
    now rewrite (remove_at_unselected sel l 0 i).
Qed.

Lemma pop_rows_both (sel : list nat) :
  forall q,
    List.length (q_lst q) = List.length (q_files q) ->
    fold_left pop_row sel q
    = mkQueue (fold_left (fun l i => remove_at i l) sel (q_files q))
              (fold_left (fun l i => remove_at i l) sel (q_lst q)).
Proof.
  assert (Hlen : forall (A : Type) (l : list A) i,
             (List.length l <= i)%nat -> remove_at i l = l).
  { intros A l. induction l as [| x r IH]; intros [| i] H; cbn in *;
      try reflexivity; try lia. now rewrite IH by lia. }
  assert (Hsame : forall (A B : Type) (l : list A) (m : list B) i,
             List.length m = List.length l ->
             List.length (remove_at i m) = List.length (remove_at i l)).
  { intros A B l. induction l as [| x r IH]; intros [| y m] [| i] H;
      cbn in *; try reflexivity; try discriminate; try lia.
    now rewrite (IH m i) by lia. }
  induction sel as [| i sel IH]; intros q Hq; [now destruct q |].
  cbn [fold_left]. unfold pop_row at 2.
  destruct (Nat.ltb_spec i (List.length (q_files q))) as [Hi | Hi].
  - rewrite IH by (cbn [q_files q_lst]; now apply Hsame). reflexivity.
  - rewrite IH by exact Hq.
    now rewrite (Hlen _ (q_files q) i), (Hlen _ (q_lst q) i) by lia.
Qed.

(** X22.  Removing the selected rows, given in rising order as the
    listbox reports them, removes exactly the files at those rows: the
    others stay, in order, and the listbox still shows the queue row by
    row. *)
Theorem remove_selected_removes_rows (sel : list nat) (q : Queue) :
  mirrored q -> StronglySorted lt sel ->
  q_files (fst (remove_selected sel q)) = unselected 0 sel (q_files q)
  /\ mirrored (fst (remove_selected sel q)).
Proof.
  intros Hm Hs.
  assert (Hq : fst (remove_selected sel q) = fold_left pop_row (rev sel) q)
    by (now destruct sel).
  rewrite Hq, pop_rows_both by (rewrite Hm; apply length_map).
  unfold mirrored. cbn [q_files q_lst]. rewrite !remove_rows by exact Hs.
  split; [reflexivity |]. rewrite Hm. apply unselected_map.
Qed.

Lemma remove_selected_removes_rows_witness :
  q_files (fst (remove_selected [0; 2]%nat toy_queue))
  = [toy_path "b.mp3"; toy_path "d.wav"].
Proof.
  apply (remove_selected_removes_rows [0; 2]%nat toy_queue).
  - reflexivity.
  - repeat constructor.
Defined.



(** * The progress display *)

Lemma ui_events_app (xs ys : list Effect) :
  ui_events (xs ++ ys) = ui_events xs ++ ui_events ys.
Proof.
  induction xs as [| e xs IH]; [reflexivity |].
  destruct e; cbn [ui_events app]; now rewrite IH.
Qed.

Lemma total_bar_values_app (xs ys : list Effect) :
  total_bar_values (xs ++ ys) = total_bar_values xs ++ total_bar_values ys.
Proof.
  induction xs as [| e xs IH]; [reflexivity |].
  destruct e as [[] | | |]; cbn [total_bar_values app]; now rewrite IH.
Qed.

Lemma bar_pct_monotone (ta a b : Q) : a < b -> bar_pct ta a <= bar_pct ta b.
Proof.
  intros Hab. unfold bar_pct.
  destruct (Qlt_le_dec 0 ta) as [Hta | Hta]; [| lra].
  assert (Hdiv : a / ta * 100 <= b / ta * 100).
  { apply Qmult_le_compat_r; [| lra].
    unfold Qdiv. apply Qmult_le_compat_r; [lra |].
    apply Qlt_le_weak, Qinv_lt_0_compat, Hta. }
  unfold pymin.
  destruct (Qlt_le_dec (a / ta * 100) 100), (Qlt_le_dec (b / ta * 100) 100);
    lra.
Qed.

Lemma bar_pct_fraction (total part : Q) :
  0 < part -> part <= total ->
  bar_pct total part == part / total * 100
  /\ 0 < bar_pct total part /\ bar_pct total part <= 100.
Proof.
  intros Hp Hle. assert (Ht : 0 < total) by lra.
  assert (Hhi : part / total <= 1) by (apply Qle_shift_div_r; lra).
  assert (Hlo : 0 < part / total) by (apply Qlt_shift_div_l; lra).
  assert (He : bar_pct total part == part / total * 100).
  { unfold bar_pct. destruct (Qlt_le_dec 0 total); [| lra].
    apply pymin_of_le. lra. }
  split; [exact He |]. rewrite He. split; lra.
Qed.

Lemma sorted_map_monotone (f : Q -> Q) (l : list Q) :
  (forall a b, a < b -> f a <= f b) ->
  StronglySorted Qlt l -> StronglySorted Qle (map f l).
Proof.
  intros Hf. induction 1 as [| a l _ IH Hall]; cbn [map]; constructor;
    [exact IH |].
  apply Forall_map. eapply Forall_impl; [| exact Hall].
  intros b Hb. now apply Hf.
Qed.

(** Every progress event of the loop carries the loop's total. *)
Lemma run_files_carry_total settings nfiles total_audio total_start
      (jobs : list (Path * Q * FileObs)) :
  forall idx st,
    total_bar_values
      (fst (run_files settings nfiles total_audio total_start idx st jobs))
    = map (bar_pct total_audio)
          (total_values
             (fst (run_files settings nfiles total_audio total_start
                             idx st jobs))).
Proof.
  induction jobs as [| [[audio dur] o] rest IH]; intros idx st;
    [reflexivity |].
  rewrite run_files_cons.
  pose proof (process_file_shape settings nfiles total_audio total_start
                idx st audio dur o) as Hshape.
  pose proof (poll_loop_effects settings total_audio total_start
                (total_done_audio st) (speed_est st) idx nfiles audio dur
                (file_start o) (ticks o) EmptyString None 0 I) as Hall.
  assert (Hp : forall effs,
             Forall (poll_effect total_audio (total_done_audio st) idx nfiles
                                 audio dur) effs ->
             total_bar_values effs
             = map (bar_pct total_audio) (total_values effs)).
  { induction 1 as [| e effs He _ IHe]; [reflexivity |].
    destruct He as [-> | [te [df [fe [-> _]]]]];
      cbn [total_bar_values total_values map]; now rewrite IHe. }
  destruct (process_file _ _ _ _ _ _ _ _ _) as [effs out]. cbn [fst] in *.
  assert (Hone : total_bar_values effs
                 = map (bar_pct total_audio) (total_values effs)).
  { destruct Hshape as [-> | [-> | [-> | ->]]];
      cbn [total_bar_values total_values map]; try reflexivity;
      [now apply Hp |].
    rewrite total_bar_values_app, total_values_app, map_app.
    now rewrite (Hp _ Hall). }
  destruct out as [st' | | e]; cbn [fst]; try exact Hone.
  now rewrite total_bar_values_app, total_values_app, map_app, Hone, IH.
Qed.

(** A run's progress events keep the order of estimates the display
    relies on. *)
Lemma worker_progress_bounds settings t0 files ta td te d df fe i n nm :
  In (Put (EvProgress ta td te d df fe i n nm))
     (effects (_worker settings t0 files)) ->
  0 < df /\ df <= d /\ df <= td /\ td <= ta.
Proof.
  intros Hin.
  destruct (probe_all files) as [e | jobs] eqn:Hp.
  - unfold _worker in Hin. rewrite Hp in Hin.
    destruct Hin as [H | []]. discriminate.
  - destruct (worker_effects settings t0 files jobs Hp)
      as [total [effs [r [E [Hsum [He _]]]]]].
    rewrite He in Hin. apply in_app_or in Hin as [Hin | Hin].
    + destruct (run_files_progress_fields settings (List.length files) total
                  t0 jobs 1%nat initial_state ta td te d df fe i n nm
                  (probe_all_nonneg files jobs Hp))
        as [_ [_ [_ [H0 [H1 H2]]]]]; [cbn; lra | now rewrite E |].
      destruct (run_files_bounded settings (List.length files) total t0 jobs
                  1%nat initial_state ta td te d df fe i n nm
                  (probe_all_nonneg files jobs Hp)) as [-> Hle];
        [| now rewrite E | repeat split; assumption].
      change (fold_left Qplus (map job_dur jobs)
                        (total_done_audio initial_state))
        with (sum_durations jobs). lra.
    + destruct r as [e | [parts c]]; cbn [In] in Hin;
        repeat (destruct Hin as [Hin | Hin]; [discriminate |]);
        destruct Hin.
Qed.



(** X25.  The projected finish is a linear extrapolation: with some
    audio done in some elapsed time and more to go, it is the elapsed
    time scaled by total over done.  Once the done audio has reached the
    total, the projection is the elapsed time itself. *)
Theorem finish_is_linear_extrapolation (total done elapsed : Q) :
  0 < elapsed -> 0 < done ->
  (done <= total -> finish_wall total done elapsed == elapsed * total / done)
  /\ (total <= done -> finish_wall total done elapsed == elapsed).
Proof.
  intros He Hd.
  assert (Hx : 0 < done / elapsed) by (apply Qlt_shift_div_l; lra).
  unfold finish_wall, remaining_wall, speed_x.
  destruct (Qlt_le_dec 0 elapsed); [| lra].
  destruct (Qlt_le_dec 0 (done / elapsed)); [| lra].
  split; intros Hle.
  - rewrite pymax_of_le by lra. field. split; lra.
  - assert (Hz : pymax 0 (total - done) == 0).
    { unfold pymax. destruct (Qlt_le_dec 0 (total - done)); lra. }
    rewrite Hz. field. split; lra.
Qed.

Lemma finish_is_linear_extrapolation_witness :
  finish_wall 60 12 30 == 150.
Proof.
  destruct (finish_is_linear_extrapolation 60 12 30) as [H _];
    [reflexivity | reflexivity |].
  rewrite H; [reflexivity | discriminate].
Defined.

(** X26.  Over a whole run the total bar never moves back: the values
    the progress events set it to are in non-decreasing order. *)
Theorem total_bar_never_moves_back settings t0 files :
  StronglySorted Qle (total_bar_values (effects (_worker settings t0 files))).
Proof.
  destruct (probe_all files) as [e | jobs] eqn:Hp.
  - unfold _worker. rewrite Hp. constructor.
  - destruct (worker_effects settings t0 files jobs Hp)
      as [total [effs [r [E [_ [He _]]]]]].
    rewrite He, total_bar_values_app.
    replace (total_bar_values match r with
                              | inl e => [Put (EvError e)]
                              | inr (parts, _) => _
                              end) with (@nil Q)
      by (now destruct r as [e | [parts c]]).
    rewrite app_nil_r.
    pose proof (run_files_carry_total settings (List.length files) total t0
                  jobs 1%nat initial_state) as Hc.
    pose proof (run_files_total_increasing settings (List.length files) total
                  t0 jobs 1%nat initial_state
                  (probe_all_nonneg files jobs Hp)) as [Hs _].
    rewrite E in Hc, Hs. cbn [fst] in Hc, Hs. rewrite Hc.
    apply sorted_map_monotone; [apply bar_pct_monotone | exact Hs].
Qed.

(** A run's last event is the done event or an error event. *)
Lemma worker_last_event settings t0 files :
  exists evs last,
    ui_events (effects (_worker settings t0 files)) = evs ++ [last]
    /\ (last = EvDone \/ exists e, last = EvError e).
Proof.
  destruct (probe_all files) as [e | jobs] eqn:Hp.
  - exists [], (EvError e). unfold _worker. rewrite Hp.
    split; [reflexivity | right; now exists e].
  - destruct (worker_effects settings t0 files jobs Hp)
      as [total [effs [r [_ [_ [He _]]]]]].
    rewrite He, ui_events_app. destruct r as [e | [parts c]].
    + exists (ui_events effs), (EvError e).
      split; [reflexivity | right; now exists e].
    + eexists (ui_events effs ++ [_]), EvDone.
      split; [cbn [ui_events]; now rewrite <- app_assoc | now left].
Qed.

(** X27.  However a run ends, once the display has handled its events
    the window is back to idle: the status reads Idle and the cancel
    button is disabled. *)
Theorem display_returns_to_idle settings t0 files fmt_f ui arrivals :
  map snd arrivals = ui_events (effects (_worker settings t0 files)) ->
  ui_status (poll_ui_queue fmt_f ui arrivals) = "Idle"
  /\ ui_cancel_button (poll_ui_queue fmt_f ui arrivals) = "disabled".
Proof.
  intros Hmap.
  destruct (worker_last_event settings t0 files) as [evs [last [E Hlast]]].
  rewrite E in Hmap. apply map_eq_app in Hmap as [pre [post [-> [_ Hpost]]]].
  destruct post as [| a [| b post]]; try discriminate.
  cbn [map] in Hpost. inversion Hpost as [Ha].
  unfold poll_ui_queue. rewrite fold_left_app. cbn [fold_left].
  rewrite Ha. destruct Hlast as [-> | [e ->]]; split; reflexivity.
Qed.

Lemma display_returns_to_idle_witness :
  ui_status
    (poll_ui_queue fmt_fixed ui_running
       (map (fun ev => (true, "12:00:00", ev))
            (ui_events (effects (_worker sample_settings 0 queue_cancelled)))))
  = "Idle".
Proof.
  refine (proj1 (display_returns_to_idle
                   sample_settings 0 queue_cancelled fmt_fixed ui_running
                   (map (fun ev => (true, "12:00:00", ev))
                        (ui_events
                           (effects (_worker sample_settings 0 queue_cancelled))))
                   _)).
  generalize (ui_events (effects (_worker sample_settings 0 queue_cancelled))).
  intros l. induction l as [| ev l IH]; [reflexivity |].
  cbn [map snd]. now rewrite IH.
Defined.

(** * Further properties of dropped paths, defaults and the estimate *)

(** X28.  Text that runs straight into an opening brace is lost: of a
    bare path followed at once by a braced one, only the braced path is
    returned. *)
Theorem text_before_brace_is_dropped (a b : string) :
  a <> EmptyString -> b <> EmptyString ->
  all_chars (fun c => negb (is_brace c)) a = true ->
  all_chars (fun c => negb (isspace c)) a = true ->
  all_chars (fun c => negb (is_brace c)) b = true ->
  normalize_dnd_paths (a +++ "{" +++ b +++ "}") = [b].
Proof.
  intros Ha Hb Hab Has Hbb. unfold normalize_dnd_paths.
  assert (Ht : trimmed (a +++ "{" +++ b +++ "}")).
  { destruct a as [| c r]; [congruence |]. split.
    - exists c, (r +++ "{" +++ b +++ "}"). split; [reflexivity |].
      cbn [all_chars] in Has. apply andb_prop in Has as [Hc _].
      now apply negb_true_iff in Hc.
    - exists "}"%char. split; [| reflexivity].
      rewrite last_char_app by discriminate.
      change ("{" +++ b +++ "}") with (String "{" (b +++ "}")).
      rewrite last_char_cons, last_char_app by discriminate. reflexivity. }
  rewrite (strip_trimmed _ Ht).
  destruct Ht as [[c [r [E _]]] _]. rewrite E, <- E.
  rewrite dnd_scan_text by auto.
  change ("{" +++ b +++ "}") with (String "{" (b +++ "}")).
  cbn [dnd_scan Ascii.eqb Bool.eqb].
  rewrite dnd_scan_text by auto.
  cbn [String.append dnd_scan Ascii.eqb Bool.eqb].
  destruct b; [congruence | reflexivity].
Qed.

Lemma text_before_brace_is_dropped_witness :
  normalize_dnd_paths "C:/a.wav{C:/b c.wav}" = ["C:/b c.wav"].
Proof.
  apply (text_before_brace_is_dropped "C:/a.wav" "C:/b c.wav");
    [discriminate | discriminate | reflexivity | reflexivity | reflexivity].
Defined.

Lemma first_existing_exists (path_exists : string -> bool)
      (cands : list string) :
  first_existing path_exists cands = EmptyString
  \/ (path_exists (first_existing path_exists cands) = true
      /\ In (first_existing path_exists cands) cands).
Proof.
  induction cands as [| c rest IH]; [now left |]. cbn [first_existing].
  destruct (path_exists c) eqn:Ec; [right; split; [exact Ec | now left] |].
  destruct IH as [IH | [IH1 IH2]]; [now left | right].
  split; [exact IH1 | now right].
Qed.

Lemma first_existing_none (path_exists : string -> bool)
      (cands : list string) :
  Forall (fun c => path_exists c = false) cands ->
  first_existing path_exists cands = EmptyString.
Proof.
  induction 1 as [| c rest Hc _ IH]; [reflexivity |].
  cbn [first_existing]. now rewrite Hc.
Qed.

(** X29.  The default tool paths never point at something missing.  The
    default transcription executable is one of the known candidates
    and exists, or it is empty; it is empty when none of the candidates
    exists.  The default probe is a bundled file that exists, or the
    bare command name ffprobe. *)
Theorem default_paths_exist meipass cwd path_div path_exists :
  (get_default_whisper_cli meipass cwd path_div path_exists = EmptyString
   \/ (path_exists (get_default_whisper_cli meipass cwd path_div path_exists) = true
       /\ In (get_default_whisper_cli meipass cwd path_div path_exists)
             (whisper_cli_candidates meipass cwd path_div)))
  /\ (Forall (fun c => path_exists c = false)
             (whisper_cli_candidates meipass cwd path_div) ->
      get_default_whisper_cli meipass cwd path_div path_exists = EmptyString)
  /\ (get_default_ffprobe meipass path_div path_exists = "ffprobe"
      \/ path_exists (get_default_ffprobe meipass path_div path_exists) = true).
Proof.
  split; [apply first_existing_exists |].
  split; [apply first_existing_none |].
  unfold get_default_ffprobe.
  destruct meipass as [[| c r] |]; try now left.
  cbn zeta. destruct (path_exists _) eqn:E; [now right | now left].
Qed.

Lemma default_paths_exist_witness :
  get_default_whisper_cli (Some "C:/bundle") "C:/work" path_join
                          (fun _ => false)
  = EmptyString.
Proof.
  apply (default_paths_exist (Some "C:/bundle") "C:/work" path_join
                             (fun _ => false)).
  repeat constructor.
Defined.

(** X30.  The throughput estimate stays positive: a file that runs to
    its end leaves a positive estimate when it found one, and lowers it
    by at most 30 percent. *)
Theorem speed_estimate_stays_positive
        settings nfiles ta ts idx st audio dur o effs st' :
  0 < speed_est st -> 0 <= dur ->
  process_file settings nfiles ta ts idx st audio dur o = (effs, Next st') ->
  0 < speed_est st' /\ speed_est st * 0.7 <= speed_est st'.
Proof.
  intros Hs Hd E.
  assert (Hst : speed_est st'
                = update_speed (speed_est st) dur (file_wall_of o)).
  { unfold process_file in E. destruct (cancel_before o); [discriminate |].
    destruct (popen_error o); [discriminate |].
    destruct (poll_loop _ _ _ _ _ _ _ _ _ _ _ _ _ _) as [pe c].
    destruct (c || cancel_after o); inversion E; reflexivity. }
  rewrite Hst. unfold update_speed.
  destruct (Qlt_le_dec 0 dur) as [Hpos | Hzero]; [| split; lra].
  assert (Hw : 0 < file_wall_of o).
  { unfold file_wall_of. pose proof (pymax_lower 0.001 (file_end o - file_start o)).
    assert (0 < 0.001) by reflexivity. lra. }
  assert (Hq : 0 < dur / file_wall_of o) by (apply Qlt_shift_div_l; lra).
  setoid_replace 0.70 with 0.7 by reflexivity.
  setoid_replace 0.30 with 0.3 by reflexivity.
  split; lra.
Qed.

Lemma speed_estimate_stays_positive_witness :
  exists effs st',
    process_file sample_settings 1 100 0 1%nat initial_state
                 (wav "a") 100 obs_no_output = (effs, Next st')
    /\ 0 < speed_est st'.
Proof.
  pose proof (process_file_completes sample_settings 1 100 0 1%nat
                initial_state (wav "a") 100 obs_no_output eq_refl) as E.
  do 2 eexists. split; [exact E |].
  assert (Hs : 0 < speed_est initial_state) by reflexivity.
  assert (Hd : 0 <= 100) by discriminate.
  exact (proj1 (speed_estimate_stays_positive
                  sample_settings 1 100 0 1%nat initial_state (wav "a") 100
                  obs_no_output _ _ Hs Hd E)).
Defined.
